(** * golem test-support harness: process supervision, output relay and the
      localhost runtime stub

    A shallow embedding of
    - [scripts/node_integration_tests/helpers.py] (module [Helpers]) and
    - [tests/golem/envs/localhost.py] (module [Localhost]),
    together with the properties of the specification that concern them.

    Python code is embedded in a state-and-exception monad ([Py.M]):
    a computation takes the mutable world it runs in and gives back either
    a value or a raised exception, and the world it leaves behind. *)

From Stdlib Require Import ZArith String List Lia.
From Stdlib.Strings Require Import Byte.
From stdpp Require Import base option list gmap strings pretty.

Local Open Scope string_scope.
Local Open Scope list_scope.
Local Open Scope Z_scope.

(* ===================================================================== *)
(** * A small model of the Python constructs the two files use *)
(* ===================================================================== *)

Module Py.

(** The exception classes that occur in the two files, and two that do
    not derive from [Exception]. *)
Inductive exc_class : Type :=
| AssertionError
| IndexError
| KeyError
| AttributeError
| RuntimeError
| UnicodeDecodeError
| QueueEmpty            (* queue.Empty *)
| TimeoutExpired        (* subprocess.TimeoutExpired *)
| SystemExit
| KeyboardInterrupt.

Global Instance exc_class_eq_dec : EqDecision exc_class.
Proof. solve_decision. Defined.

(** [issubclass(c, Exception)]: everything here but [SystemExit] and
    [KeyboardInterrupt], which derive from [BaseException] directly. *)
Definition subclass_of_Exception (c : exc_class) : bool :=
  match c with
  | SystemExit | KeyboardInterrupt => false
  | _ => true
  end.

(** An exception instance: its class and [str(e)]. *)
Record exn : Type := mk_exn { exc_type : exc_class; exc_str : string }.

Global Instance exn_eq_dec : EqDecision exn.
Proof. solve_decision. Defined.

Definition isinstance (e : exn) (c : exc_class) : bool :=
  bool_decide (exc_type e = c).

Definition isinstance_Exception (e : exn) : bool :=
  subclass_of_Exception (exc_type e).

Definition str (e : exn) : string := exc_str e.

(** How a computation ends: with a value, with a raised exception, or,
    for a loop run with too little fuel, not within the fuel it got. *)
Inductive result (A : Type) : Type :=
| Ok (a : A)
| Raise (e : exn)
| OutOfFuel.
Global Arguments Ok {A} a.
Global Arguments Raise {A} e.
Global Arguments OutOfFuel {A}.

(** Computations over a world [W]. *)
Definition M (W A : Type) : Type := W -> result A * W.

Section Monad.
Context {W : Type}.

Definition ret {A} (a : A) : M W A := fun w => (Ok a, w).

Definition bind {A B} (m : M W A) (k : A -> M W B) : M W B :=
  fun w =>
    match m w with
    | (Ok a, w') => k a w'
    | (Raise e, w') => (Raise e, w')
    | (OutOfFuel, w') => (OutOfFuel, w')
    end.

Definition raise {A} (e : exn) : M W A := fun w => (Raise e, w).

Definition get : M W W := fun w => (Ok w, w).
Definition gets {A} (f : W -> A) : M W A := fun w => (Ok (f w), w).
Definition modify (f : W -> W) : M W unit := fun w => (Ok tt, f w).

(** [assert c]: raises [AssertionError] when [c] is false. *)
Definition assert (c : bool) : M W unit :=
  if c then ret tt else raise (mk_exn AssertionError "").

(** [try: body / except <classes matched by handler>: ...]: the handler
    answers [None] for an exception its clause does not match, which
    then propagates. *)
Definition try_except {A} (body : M W A)
           (handler : exn -> option (M W A)) : M W A :=
  fun w =>
    match body w with
    | (Ok a, w') => (Ok a, w')
    | (Raise e, w') =>
        match handler e with
        | Some h => h w'
        | None => (Raise e, w')
        end
    | (OutOfFuel, w') => (OutOfFuel, w')
    end.

(** [try: body / except ...: ... / else: orelse]: [orelse] runs only
    when [body] raised nothing, and outside the reach of the handler. *)
Definition try_except_else {A B} (body : M W A)
           (handler : exn -> option (M W B)) (orelse : M W B) : M W B :=
  fun w =>
    match body w with
    | (Ok _, w') => orelse w'
    | (Raise e, w') =>
        match handler e with
        | Some h => h w'
        | None => (Raise e, w')
        end
    | (OutOfFuel, w') => (OutOfFuel, w')
    end.

(** [except C:] and [except C as e:] clauses. *)
Definition except {A} (c : exc_class) (h : exn -> M W A)
  : exn -> option (M W A) :=
  fun e => if isinstance e c then Some (h e) else None.

Definition except_Exception {A} (h : exn -> M W A)
  : exn -> option (M W A) :=
  fun e => if isinstance_Exception e then Some (h e) else None.

Definition out_of_fuel {A} : M W A := fun w => (OutOfFuel, w).

(** How one pass of a loop body ends: by falling through to the next
    pass, or by leaving the loop with a value ([return]). *)
Inductive flow (A : Type) : Type :=
| Next
| Return (a : A).
Global Arguments Next {A}.
Global Arguments Return {A} a.

(** [for x in iter(next, sentinel): body x]: [next] is called before
    every pass and the loop ends, with [None], when it answers the
    sentinel; an exception of [next] or of the body leaves the loop. *)
Fixpoint for_iter {X A} (fuel : nat) (next : M W X)
         (is_sentinel : X -> bool) (body : X -> M W (flow A))
  : M W (option A) :=
  match fuel with
  | O => out_of_fuel
  | S fuel' =>
      bind next (fun x =>
      if is_sentinel x then ret None
      else bind (body x) (fun f =>
           match f with
           | Next => for_iter fuel' next is_sentinel body
           | Return a => ret (Some a)
           end))
  end.

(** [while True: body]. *)
Fixpoint while_true (fuel : nat) (body : M W unit) : M W unit :=
  match fuel with
  | O => out_of_fuel
  | S fuel' => bind body (fun _ => while_true fuel' body)
  end.
End Monad.

Declare Scope py_scope.
Delimit Scope py_scope with py.
Notation "'do' x <- m ; k" := (bind m (fun x => k))
  (at level 10, x name, m at level 99, k at level 200) : py_scope.
Notation "m ;; k" := (bind m (fun _ => k))
  (at level 100, k at level 200, right associativity) : py_scope.


(** Unfolds the monad down to functions on worlds. *)
Ltac run_py :=
  unfold try_except, try_except_else, except, except_Exception, assert,
    bind, ret, raise, gets, get, modify, out_of_fuel in *;
  simpl in *.

End Py.

Import Py.
Local Open Scope py_scope.

(* ===================================================================== *)
(** * scripts/node_integration_tests/helpers.py *)
(* ===================================================================== *)

Module Helpers.

(** ** Process supervision *)

(** What the supervising code does to the outside, in order. *)
Inductive event : Type :=
| EvTerminate            (* process.terminate() *)
| EvKill                 (* process.kill() *)
| EvWait (timeout : Z)   (* process.wait(timeout) *)
| EvPrint (line : string).



(** The world of the supervisor: the log of what it did. *)
Definition log := list event.

Definition emit (e : event) : M log unit := modify (fun l => l ++ [e]).






(** ** Output relay *)

(** A line of process output, as [readline] gives it. *)
Definition bytes := list byte.

Definition is_empty (line : bytes) : bool :=
  match line with [] => true | _ => false end.

(** The relay and what it connects: the lines the process has still to
    write to its output stream, the queue, and what has been written to
    [sys.stdout]. *)
Record relay : Type := mk_relay {
  stream : list bytes;
  queue : list bytes;
  stdout : list string
}.

(** [stream.readline()]: the next line, [b''] at end of stream. *)
Definition readline : M relay bytes :=
  fun w =>
    match stream w with
    | [] => (Ok [], w)
    | line :: rest => (Ok line, mk_relay rest (queue w) (stdout w))
    end.

(** [q.put(line)] on an unbounded [queue.Queue]. *)
Definition put (line : bytes) : M relay unit :=
  modify (fun w => mk_relay (stream w) (queue w ++ [line]) (stdout w)).

(** [q.get_nowait()]: the oldest item, [queue.Empty] when there is none. *)
Definition get_nowait : M relay bytes :=
  fun w =>
    match queue w with
    | [] => (Raise (mk_exn QueueEmpty ""), w)
    | line :: rest => (Ok line, mk_relay (stream w) rest (stdout w))
    end.

(** [sys.stdout.write(s)]. *)
Definition write (s : string) : M relay unit :=
  modify (fun w => mk_relay (stream w) (queue w) (stdout w ++ [s])).

(** A match object: the pattern, the subject string and the position
    the match starts at ([m.re], [m.string], [m.start()]). *)
Record Match (pattern : Type) : Type := mk_match {
  m_re : pattern;
  m_string : string;
  m_start : nat
}.
Global Arguments mk_match {pattern} _ _ _.
Global Arguments m_re {pattern} _.
Global Arguments m_string {pattern} _.
Global Arguments m_start {pattern} _.

Section Relay.
(** [bytes.decode('utf-8')]: the text of a line, [None] where Python
    raises [UnicodeDecodeError]. *)
Variable decode : bytes -> option string.

(** The regular expression engine: [match_at p s i] tells whether
    pattern [p] matches in [s] beginning at index [i]. *)
Context {pattern : Type}.
Variable match_at : pattern -> string -> nat -> bool.

Definition decode_utf8 (line : bytes) : M relay string :=
  match decode line with
  | Some s => ret s
  | None => raise (mk_exn UnicodeDecodeError "")
  end.

(** [re.match(pattern, string)]: a match only at the beginning of the
    string. *)
Definition re_match (p : pattern) (s : string) : option (Match pattern) :=
  if match_at p s 0%nat then Some (mk_match p s 0%nat) else None.

(** The reader thread of [get_output_queue]:
    [for line in iter(stream.readline, b''): q.put(line)]. *)
Definition output_queue (fuel : nat) : M relay unit :=
  for_iter fuel readline is_empty
    (fun line => put line ;; ret (@Next unit)) ;;
  ret tt.

(** [get_output_queue(process)]: a new queue, fed from the output stream
    of the process by a thread of its own that runs [output_queue]; the
    queue is what the caller gets. *)
Definition get_output_queue (process_stdout : list bytes) : relay :=
  mk_relay process_stdout [] [].

(** A queued item is a line and never [None]: the sentinel of
    [iter(q.get_nowait, None)] never ends the loop, and the
    [if line is None: break] of [print_output] never fires. *)
Definition is_None (line : bytes) : bool := false.

Definition print_output (fuel : nat) (prefix : string) : M relay unit :=
  try_except
    (for_iter fuel get_nowait is_None
       (fun line =>
          if is_None line then ret (Return tt)
          else
            do text <- decode_utf8 line ;
            write (prefix +:+ text) ;;
            ret Next) ;;
     ret tt)
    (except QueueEmpty (fun _ => ret tt)).

Definition clear_output (fuel : nat) : M relay unit :=
  try_except
    (while_true fuel (get_nowait ;; ret tt))
    (except QueueEmpty (fun _ => ret tt)).

(** [if line:] holds for a line that is not empty; a match object is
    always true. *)
Definition search_output (fuel : nat) (p : pattern)
  : M relay (option (Match pattern)) :=
  try_except
    (for_iter fuel get_nowait is_None
       (fun line =>
          if negb (is_empty line) then
            do text <- decode_utf8 line ;
            match re_match p text with
            | Some m => ret (Return m)
            | None => ret Next
            end
          else ret Next))
    (except QueueEmpty (fun _ => ret None)).

(** *** Reader and consumer running side by side

    The reader thread and the consuming thread meet only in the queue,
    whose [put] and [get_nowait] are atomic. An execution of the two
    is then a sequence of ticks, each one pass of the reader's loop or
    one pass of the loop of [print_output]; a pass that finds the
    queue empty ends that call of [print_output], and the next
    consumer tick belongs to the next call. *)
Inductive tick : Type := Reader | Consumer.

Definition reader_pass : M relay unit :=
  do line <- readline ;
  if is_empty line then ret tt else put line.

Definition consumer_pass (prefix : string) : M relay unit :=
  try_except
    (do line <- get_nowait ;
     do text <- decode_utf8 line ;
     write (prefix +:+ text))
    (except QueueEmpty (fun _ => ret tt)).

Definition run_tick (prefix : string) (t : tick) : M relay unit :=
  match t with
  | Reader => reader_pass
  | Consumer => consumer_pass prefix
  end.

Fixpoint run_schedule (prefix : string) (s : list tick) : M relay unit :=
  match s with
  | [] => ret tt
  | t :: s' => run_tick prefix t ;; run_schedule prefix s'
  end.

(** How many passes of its loop a schedule gives the reader. *)
Fixpoint reader_ticks (s : list tick) : nat :=
  match s with
  | [] => O
  | Reader :: s' => S (reader_ticks s')
  | Consumer :: s' => reader_ticks s'
  end.
End Relay.

(** ** Instances for the examples *)


(** UTF-8 decoding on lines of ASCII bytes, where it gives the characters
    of the same codes; other lines are left undecoded here. *)
Definition decode_ascii (line : bytes) : option string :=
  if forallb (fun b => (Byte.to_N b <? 128)%N) line
  then Some (string_of_list_byte line)
  else None.

(** The line of output that carries [text]: its bytes and a newline. *)
Definition line_of (text : string) : bytes :=
  list_byte_of_string text ++ [x0a].

(** Patterns without special characters: such a pattern matches at
    index [i] when the subject reads the pattern from there on. *)
Fixpoint string_drop (i : nat) (s : string) : string :=
  match i, s with
  | O, _ => s
  | S i', String _ s' => string_drop i' s'
  | S _, EmptyString => EmptyString
  end.

Definition literal_match_at (p s : string) (i : nat) : bool :=
  (i <=? String.length s)%nat && String.prefix p (string_drop i s).

End Helpers.

(* ===================================================================== *)
(** * tests/golem/envs/localhost.py *)
(* ===================================================================== *)

Module Localhost.

Definition Path := string.

(** Handles of the objects the runtime holds: a [threading.Thread], an
    asyncio event loop, a [golem_task_api] [AppServer]. *)
Inductive Thread : Type := mk_thread (ident : nat).
Inductive EventLoop : Type := mk_loop (ident : nat).
Inductive AppServer : Type := mk_server (ident : nat).

Global Instance Thread_eq_dec : EqDecision Thread.
Proof. solve_decision. Defined.
Global Instance EventLoop_eq_dec : EqDecision EventLoop.
Proof. solve_decision. Defined.
Global Instance AppServer_eq_dec : EqDecision AppServer.
Proof. solve_decision. Defined.

Definition thread_ident (t : Thread) : nat := let (n) := t in n.

(** Modelled from the spec: the lifecycle states of a Runtime
    ([RuntimeStatus] of [golem.envs], which is not among the sources). *)
Inductive RuntimeStatus : Type :=
| uninitialized | prepared | started | stopped | torn_down | failed.

Global Instance RuntimeStatus_eq_dec : EqDecision RuntimeStatus.
Proof. solve_decision. Defined.

(** How an awaited coroutine ends. *)
Inductive outcome : Type :=
| Returns
| Raises (e : exn).

(** What [twisted] hands back to the orchestrator. *)
Inductive thread_call : Type :=
| Thread_join (t : Thread) (timeout : Z).

Inductive Deferred : Type :=
| defer_succeed_None                  (* defer.succeed(None) *)
| defer_fail                          (* defer.fail() *)
| deferToThread (call : thread_call). (* threads.deferToThread(f, ...) *)

(** The thread a statement runs on. *)
Inductive tid : Type :=
| MainThread
| WorkerThread (t : Thread).

(** Where a thread made by [start] stands in [_spawn_server]. *)
Inductive thread_state : Type :=
| Launched                 (* started, target not yet entered *)
| Serving                  (* inside run_until_complete(entrypoint(...)) *)
| Finished                 (* target returned *)
| Died (e : exn).          (* target left by an exception *)

Section Localhost.
(** [golem_task_api.structs.Subtask], Python's [float] and [dict], and
    [str.split()] come from outside the repository. *)
Context {Subtask float dict : Type}.
Variable split : string -> list string.

(** ** LocalhostPrerequisites *)
Record LocalhostPrerequisites : Type := {
  compute_results : gmap string string;
  benchmark_result : float;
  subtasks : list Subtask;
  verify_results : gmap string (bool * option string)
}.

Record LocalhostPayload : Type := {
  command : string;
  shared_dir : Path;
  prerequisites : LocalhostPrerequisites
}.

(** ** LocalhostAppHandler *)
Record LocalhostAppHandler : Type := mk_handler {
  _compute_results : gmap string string;
  _benchmark_result : float;
  _subtasks : list Subtask;
  _verify_results : gmap string (bool * option string)
}.

(** [LocalhostAppHandler.__init__]: the handler holds the very objects of
    the prerequisites, its list of subtasks among them. *)
Definition LocalhostAppHandler_init (prereq : LocalhostPrerequisites)
  : LocalhostAppHandler :=
  {| _compute_results := compute_results prereq;
     _benchmark_result := benchmark_result prereq;
     _subtasks := subtasks prereq;
     _verify_results := verify_results prereq |}.

(** [d[key]] on a dict with string keys: [KeyError(key)] when absent. *)
Definition getitem {W V} (d : gmap string V) (key : string) : M W V :=
  match d !! key with
  | Some v => ret v
  | None => raise (mk_exn KeyError ("'" +:+ key +:+ "'"))
  end.

(** [l.pop(0)]: the first element, which leaves the list. *)
Definition pop0 {X} (l : list X) : result X * list X :=
  match l with
  | [] => (Raise (mk_exn IndexError "pop from empty list"), [])
  | x :: rest => (Ok x, rest)
  end.

Definition create_task (task_work_dir : Path) (max_subtasks_count : Z)
           (task_params : dict) : M LocalhostAppHandler unit :=
  ret tt.

Definition next_subtask (task_work_dir : Path)
  : M LocalhostAppHandler Subtask :=
  fun h =>
    let (r, rest) := pop0 (_subtasks h) in
    (r, mk_handler (_compute_results h) (_benchmark_result h) rest
                   (_verify_results h)).

Definition verify (task_work_dir : Path) (subtask_id : string)
  : M LocalhostAppHandler (bool * option string) :=
  do d <- gets _verify_results ;
  getitem d subtask_id.

Definition discard_subtasks (task_work_dir : Path)
           (subtask_ids : list string)
  : M LocalhostAppHandler (list string) :=
  ret [].

Definition run_benchmark (work_dir : Path) : M LocalhostAppHandler float :=
  gets _benchmark_result.

(** [bool(l)] of a list. *)
Definition has_pending_subtasks (task_work_dir : Path)
  : M LocalhostAppHandler bool :=
  do l <- gets _subtasks ;
  ret (match l with [] => false | _ => true end).

Definition compute (task_work_dir : Path) (subtask_id : string)
           (subtask_params : dict) : M LocalhostAppHandler string :=
  do d <- gets _compute_results ;
  getitem d subtask_id.

(** ** LocalhostRuntime *)

(** The coroutines the runtime runs on its event loop. *)
Inductive coroutine : Type :=
| entrypoint (work_dir : Path) (argv : list string)
             (requestor_handler provider_handler : LocalhostAppHandler)
| server_stop (server : AppServer).      (* self._server.stop() *)

Inductive event : Type :=
| EvThreadStart (t : Thread)
| EvNewEventLoop (l : EventLoop)
| EvSetEventLoop (l : EventLoop)
| EvRunUntilComplete (l : EventLoop) (c : coroutine)
| EvDeferToThread (call : thread_call)
| EvStatus (s : RuntimeStatus)
| EvError (e : exn) (message : string).

(** The fields of a runtime object. The first two are those of
    [RuntimeBase]; the others are set by [LocalhostRuntime.__init__]. *)
Record LocalhostRuntime : Type := mk_runtime {
  _status : RuntimeStatus;
  _fault : option (exn * string);
  _command : string;
  _work_dir : Path;
  _app_handler : LocalhostAppHandler;
  _server : option AppServer;
  _server_loop : option EventLoop;
  _server_thread : option Thread
}.

(** The runtime object [self], the thread that is running, the
    threads [start] has made, the next fresh handle and what has been
    done so far and by whom. *)
Record world : Type := mk_world {
  self : LocalhostRuntime;
  current : tid;
  workers : gmap nat thread_state;
  fresh : nat;
  trace : list (tid * event)
}.

Definition with_self (f : LocalhostRuntime -> LocalhostRuntime)
  : M world unit :=
  modify (fun w => mk_world (f (self w)) (current w) (workers w)
                            (fresh w) (trace w)).

Definition emit (ev : event) : M world unit :=
  modify (fun w => mk_world (self w) (current w) (workers w) (fresh w)
                            (trace w ++ [(current w, ev)])).

Definition new_handle : M world nat :=
  fun w => (Ok (fresh w),
            mk_world (self w) (current w) (workers w) (S (fresh w))
                     (trace w)).

Definition set_worker (t : Thread) (st : thread_state) : M world unit :=
  modify (fun w => mk_world (self w) (current w)
                            (<[thread_ident t := st]> (workers w))
                            (fresh w) (trace w)).

Definition on_thread (who : tid) (w : world) : world :=
  mk_world (self w) who (workers w) (fresh w) (trace w).

(** Reading an attribute of [self]; calling a method on what may be
    [None] raises [AttributeError]. *)
Definition attr {A} (f : LocalhostRuntime -> A) : M world A :=
  gets (fun w => f (self w)).

Definition deref {A} (o : option A) : M world A :=
  match o with
  | Some a => ret a
  | None =>
      raise (mk_exn AttributeError "'NoneType' object has no attribute")
  end.

Definition is_not_None {A} (o : option A) : bool :=
  match o with Some _ => true | None => false end.

(** *** The notifications of RuntimeBase

    [RuntimeBase] (module [golem.envs]) is not among the sources. The
    lifecycle of the specification is followed: [_prepared], [_started],
    [_stopped] and [_torn_down] move the runtime to the state of that
    name, and [_error_occurred] moves it to [failed] and records the fault
    with its message. *)

(** Modelled from the spec: the change of lifecycle state that the
    notifications of [RuntimeBase] make, which the runtime also reports. *)
Definition set_status (s : RuntimeStatus) : M world unit :=
  with_self (fun r => mk_runtime s (_fault r) (_command r) (_work_dir r)
                        (_app_handler r) (_server r) (_server_loop r)
                        (_server_thread r)) ;;
  emit (EvStatus s).

(** Modelled from the spec: [RuntimeBase._prepared], the transition to
    [prepared]. *)
Definition _prepared : M world unit := set_status prepared.

(** Modelled from the spec: [RuntimeBase._started], the transition to
    [started]. *)
Definition _started : M world unit := set_status started.

(** Modelled from the spec: [RuntimeBase._stopped], the transition to
    [stopped]. *)
Definition _stopped : M world unit := set_status stopped.

(** Modelled from the spec: [RuntimeBase._torn_down], the transition to
    [torn_down]. *)
Definition _torn_down : M world unit := set_status torn_down.

(** Modelled from the spec: [RuntimeBase._error_occurred], which records
    the fault and moves the runtime to [failed]. *)
Definition _error_occurred (error : exn) (message : string)
  : M world unit :=
  with_self (fun r => mk_runtime (_status r) (Some (error, message))
                        (_command r) (_work_dir r) (_app_handler r)
                        (_server r) (_server_loop r) (_server_thread r)) ;;
  emit (EvError error message) ;;
  set_status failed.

(** *** The methods of LocalhostRuntime *)

(** [LocalhostRuntime.__init__], called on the main thread. *)
Definition LocalhostRuntime_init (payload : LocalhostPayload) : world :=
  {| self := {| _status := uninitialized;
                _fault := None;
                _command := command payload;
                _work_dir := shared_dir payload;
                _app_handler :=
                  LocalhostAppHandler_init (prerequisites payload);
                _server := None;
                _server_loop := None;
                _server_thread := None |};
     current := MainThread;
     workers := ∅;
     fresh := 0%nat;
     trace := [] |}.

Definition set_server_loop (l : option EventLoop) : M world unit :=
  with_self (fun r => mk_runtime (_status r) (_fault r) (_command r)
                        (_work_dir r) (_app_handler r) (_server r) l
                        (_server_thread r)).

Definition set_server_thread (t : option Thread) : M world unit :=
  with_self (fun r => mk_runtime (_status r) (_fault r) (_command r)
                        (_work_dir r) (_app_handler r) (_server r)
                        (_server_loop r) t).

Definition prepare : M world Deferred :=
  _prepared ;;
  ret defer_succeed_None.

Definition clean_up : M world Deferred :=
  _torn_down ;;
  ret defer_succeed_None.

(** [asyncio.new_event_loop()] and [asyncio.set_event_loop(loop)]. *)
Definition new_event_loop : M world EventLoop :=
  do n <- new_handle ;
  emit (EvNewEventLoop (mk_loop n)) ;;
  ret (mk_loop n).

Definition set_event_loop (l : option EventLoop) : M world unit :=
  match l with
  | Some l => emit (EvSetEventLoop l)
  | None => ret tt
  end.

(** [loop.run_until_complete(coro)]: the coroutine is handed to the
    loop, and the call ends as [o] says. On a loop that is idle, as the
    new loop of [_spawn_server] is, that is the way the coroutine ends.
    On a loop that another thread is running, asyncio refuses the call
    with [RuntimeError] at once: [call_ends] below gives the end of the
    call from the state of the loop. *)
Definition complete (o : outcome) : M world unit :=
  match o with
  | Returns => ret tt
  | Raises e => raise e
  end.

Definition run_until_complete (l : EventLoop) (c : coroutine)
           (o : outcome) : M world unit :=
  emit (EvRunUntilComplete l c) ;;
  complete o.

(** The coroutine [entrypoint(work_dir=..., argv=..., ...)] of
    [_spawn_server]. *)
Definition entrypoint_call : M world coroutine :=
  do work_dir <- attr _work_dir ;
  do cmd <- attr _command ;
  do handler <- attr _app_handler ;
  ret (entrypoint work_dir (split cmd) handler handler).

(** [_spawn_server], the target of the worker thread; [o] is how the
    protocol server's entry point ends. *)
Definition _spawn_server (o : outcome) : M world unit :=
  do l <- new_event_loop ;
  set_server_loop (Some l) ;;
  do l <- attr _server_loop ;
  set_event_loop l ;;
  try_except_else
    (do l <- attr _server_loop ;
     do l <- deref l ;
     do c <- entrypoint_call ;
     run_until_complete l c o)
    (except_Exception (fun e => _error_occurred e (str e)))
    _stopped.

(** [Thread(target=self._spawn_server, daemon=False)] and
    [Thread.start()]. *)
Definition Thread_new : M world Thread :=
  do n <- new_handle ;
  ret (mk_thread n).

Definition Thread_start (t : Thread) : M world unit :=
  emit (EvThreadStart t) ;;
  set_worker t Launched.

Definition start : M world Deferred :=
  do t <- Thread_new ;
  set_server_thread (Some t) ;;
  do t <- attr _server_thread ;
  do t <- deref t ;
  Thread_start t ;;
  _started ;;
  ret defer_succeed_None.

Definition stop (o : outcome) : M world Deferred :=
  do server <- attr _server ;
  assert (is_not_None server) ;;
  do l <- attr _server_loop ;
  assert (is_not_None l) ;;
  do t <- attr _server_thread ;
  assert (is_not_None t) ;;
  do failed_early <-
    try_except
      (do l <- attr _server_loop ;
       do l <- deref l ;
       do server <- attr _server ;
       do server <- deref server ;
       run_until_complete l (server_stop server) o ;;
       ret None)
      (except_Exception (fun _ => ret (Some defer_fail))) ;
  match failed_early with
  | Some d => ret d
  | None =>
      do t <- attr _server_thread ;
      do t <- deref t ;
      emit (EvDeferToThread (Thread_join t 10)) ;;
      ret (deferToThread (Thread_join t 10))
  end.

Definition get_port_mapping (port : Z) : string * Z := ("127.0.0.1", port).

(** *** The runtime and its worker threads side by side

    The orchestrator calls the lifecycle methods one after another on
    the main thread; between two calls any launched worker may have
    moved on. A worker moves in two steps: it enters [_spawn_server]
    and runs up to the point where the entry point is being served,
    and later it leaves the [try] statement the way the entry point
    ended. *)
Definition _spawn_server_begin : M world unit :=
  do l <- new_event_loop ;
  set_server_loop (Some l) ;;
  do l <- attr _server_loop ;
  set_event_loop l ;;
  do l <- attr _server_loop ;
  do l <- deref l ;
  do c <- entrypoint_call ;
  emit (EvRunUntilComplete l c).

Definition _spawn_server_end (o : outcome) : M world unit :=
  try_except_else
    (complete o)
    (except_Exception (fun e => _error_occurred e (str e)))
    _stopped.

Inductive op : Type :=
| call_prepare
| call_start
| call_stop (o : outcome)
| call_clean_up
| worker_begin (t : Thread)
| worker_end (t : Thread) (o : outcome).

(** The world a call leaves behind, whatever it returned or raised. *)
Definition after {A} (m : M world A) (who : tid) (w : world) : world :=
  on_thread MainThread (snd (m (on_thread who w))).

Definition thread_exit (r : result unit) : thread_state :=
  match r with
  | Raise e => Died e
  | _ => Finished
  end.

Definition exec (o : op) (w : world) : world :=
  match o with
  | call_prepare => after prepare MainThread w
  | call_start => after start MainThread w
  | call_stop o => after (stop o) MainThread w
  | call_clean_up => after clean_up MainThread w
  | worker_begin t =>
      match workers w !! thread_ident t with
      | Some Launched =>
          after (_spawn_server_begin ;; set_worker t Serving)
                (WorkerThread t) w
      | _ => w
      end
  | worker_end t o =>
      match workers w !! thread_ident t with
      | Some Serving =>
          after (fun w' => let (r, w'') := _spawn_server_end o w' in
                           set_worker t (thread_exit r) w'')
                (WorkerThread t) w
      | _ => w
      end
  end.

Definition execs (ops : list op) (w : world) : world :=
  fold_left (fun w o => exec o w) ops w.

(** How many of the operations are calls of [start]. *)
Fixpoint starts (ops : list op) : nat :=
  match ops with
  | [] => O
  | call_start :: ops' => S (starts ops')
  | _ :: ops' => starts ops'
  end.

(** The states a runtime made from [payload] can be in. *)
Definition reachable (payload : LocalhostPayload) (w : world) : Prop :=
  exists ops, w = execs ops (LocalhostRuntime_init payload).

(** *** Calling into a loop from another thread

    A loop is running while the worker that made it is inside
    [run_until_complete]: the trace has the call the worker made on the
    loop, and the worker is still serving. [run_until_complete] on such a
    loop raises [RuntimeError] whatever the coroutine would do; on an idle
    loop the call ends the way the coroutine does. *)
Definition is_serving (st : option thread_state) : bool :=
  match st with
  | Some Serving => true
  | _ => false
  end.

Definition loop_is_running (l : EventLoop) (w : world) : bool :=
  existsb (fun entry : tid * event =>
             match entry with
             | (WorkerThread t, EvRunUntilComplete l' _) =>
                 bool_decide (l' = l)
                 && is_serving (workers w !! thread_ident t)
             | _ => false
             end)
          (trace w).

Definition call_ends (l : EventLoop) (w : world) (coroutine_ends : outcome)
  : outcome :=
  if loop_is_running l w
  then Raises (mk_exn RuntimeError "This event loop is already running")
  else coroutine_ends.

(** *** From prerequisites to a runtime

    [LocalhostPayloadBuilder.create_payload] and
    [LocalhostEnvironment.runtime] take any [Prerequisites] and any
    [RuntimePayload] and assert that they are those of this environment. *)
Inductive Prerequisites : Type :=
| Localhost_prerequisites (p : LocalhostPrerequisites)
| Other_prerequisites.

Inductive RuntimePayload : Type :=
| Localhost_payload (p : LocalhostPayload)
| Other_payload.

Inductive EnvConfig : Type :=
| Localhost_config
| Other_config.

Definition create_payload (prereq : Prerequisites) (shared_dir : Path)
           (command : string) (port : Z) : result RuntimePayload :=
  match prereq with
  | Localhost_prerequisites p =>
      Ok (Localhost_payload {| command := command;
                               shared_dir := shared_dir;
                               prerequisites := p |})
  | Other_prerequisites => Raise (mk_exn AssertionError "")
  end.

(** [LocalhostEnvironment.runtime(payload, config)]. *)
Definition runtime (payload : RuntimePayload) (config : option EnvConfig)
  : result world :=
  match payload with
  | Localhost_payload p => Ok (LocalhostRuntime_init p)
  | Other_payload => Raise (mk_exn AssertionError "")
  end.

(** *** The handler under the calls of the protocol server

    The server dispatches into the handler one call at a time. A call is
    one of the seven methods with its arguments; its answer is what the
    method returns. *)
Inductive verb : Type :=
| call_create_task (task_work_dir : Path) (max_subtasks_count : Z)
                   (task_params : dict)
| call_next_subtask (task_work_dir : Path)
| call_verify (task_work_dir : Path) (subtask_id : string)
| call_discard_subtasks (task_work_dir : Path) (subtask_ids : list string)
| call_run_benchmark (work_dir : Path)
| call_has_pending_subtasks (task_work_dir : Path)
| call_compute (task_work_dir : Path) (subtask_id : string)
               (subtask_params : dict).

Inductive answer : Type :=
| answer_None
| answer_subtask (s : Subtask)
| answer_verdict (v : bool * option string)
| answer_ids (ids : list string)
| answer_float (x : float)
| answer_bool (b : bool)
| answer_str (r : string).

Definition dispatch (v : verb) : M LocalhostAppHandler answer :=
  match v with
  | call_create_task d n ps =>
      create_task d n ps ;; ret answer_None
  | call_next_subtask d =>
      do s <- next_subtask d ; ret (answer_subtask s)
  | call_verify d id =>
      do v <- verify d id ; ret (answer_verdict v)
  | call_discard_subtasks d ids =>
      do l <- discard_subtasks d ids ; ret (answer_ids l)
  | call_run_benchmark d =>
      do x <- run_benchmark d ; ret (answer_float x)
  | call_has_pending_subtasks d =>
      do b <- has_pending_subtasks d ; ret (answer_bool b)
  | call_compute d id ps =>
      do r <- compute d id ps ; ret (answer_str r)
  end.

(** The calls are served in turn; one that raises leaves the handler the
    way the exception found it, and the next call goes on from there. *)
Fixpoint serve (calls : list verb) (h : LocalhostAppHandler)
  : list (result answer) * LocalhostAppHandler :=
  match calls with
  | [] => ([], h)
  | v :: calls' =>
      let (r, h') := dispatch v h in
      let (rs, h'') := serve calls' h' in
      (r :: rs, h'')
  end.

(** The subtasks among the answers, in the order they were handed out. *)
Fixpoint handed_out (rs : list (result answer)) : list Subtask :=
  match rs with
  | [] => []
  | Ok (answer_subtask s) :: rs' => s :: handed_out rs'
  | _ :: rs' => handed_out rs'
  end.

(** *** The list of subtasks as the object it is

    [LocalhostAppHandler.__init__] stores the list object of the
    prerequisites, not a copy of it: [self._subtasks] and
    [prereq.subtasks] are one list. Here the lists live in a heap and the
    prerequisites and the handlers hold a reference. *)
Definition ref := nat.
Definition heap := gmap ref (list Subtask).

Record PrerequisitesObject : Type := {
  compute_results_of : gmap string string;
  benchmark_result_of : float;
  subtasks_at : ref;
  verify_results_of : gmap string (bool * option string)
}.

Record HandlerObject : Type := mk_handler_object {
  handler_compute_results : gmap string string;
  handler_benchmark_result : float;
  handler_subtasks_at : ref;
  handler_verify_results : gmap string (bool * option string)
}.

(** [LocalhostAppHandler(prereq)]. *)
Definition new_handler (prereq : PrerequisitesObject) : HandlerObject :=
  {| handler_compute_results := compute_results_of prereq;
     handler_benchmark_result := benchmark_result_of prereq;
     handler_subtasks_at := subtasks_at prereq;
     handler_verify_results := verify_results_of prereq |}.

(** The handler as a value, with the list its reference stands for. *)
Definition handler_value (hp : heap) (h : HandlerObject)
  : LocalhostAppHandler :=
  mk_handler (handler_compute_results h) (handler_benchmark_result h)
             (default [] (hp !! handler_subtasks_at h))
             (handler_verify_results h).

(** [self._subtasks.pop(0)] and [bool(self._subtasks)] on the heap. *)
Definition next_subtask_of (h : HandlerObject) (task_work_dir : Path)
  : M heap Subtask :=
  fun hp =>
    let (r, rest) := pop0 (default [] (hp !! handler_subtasks_at h)) in
    (r, <[handler_subtasks_at h := rest]> hp).

Definition has_pending_subtasks_of (h : HandlerObject) (task_work_dir : Path)
  : M heap bool :=
  fun hp =>
    (Ok (match default [] (hp !! handler_subtasks_at h) with
         | [] => false
         | _ => true
         end), hp).

(** [prereq.subtasks], read by whoever still holds the prerequisites. *)
Definition subtasks_of (prereq : PrerequisitesObject) (hp : heap)
  : list Subtask :=
  default [] (hp !! subtasks_at prereq).
End Localhost.

(** ** Instances for the examples *)

(** Subtasks named by a number, a float and a dict that carry nothing,
    and a command of one word. *)
Definition one_word (s : string) : list string := [s].

Definition example_prerequisites : @LocalhostPrerequisites nat unit :=
  {| compute_results := {[ "s1" := "r1" ]};
     benchmark_result := tt;
     subtasks := [1%nat; 2%nat];
     verify_results := {[ "s1" := (true, None) ]} |}.

Definition example_payload : @LocalhostPayload nat unit :=
  {| command := "serve";
     shared_dir := "/tmp/work";
     prerequisites := example_prerequisites |}.

(** The same prerequisites with their list of subtasks as an object of
    the heap, at reference 0. *)
Definition example_prerequisites_object : @PrerequisitesObject unit :=
  {| compute_results_of := {[ "s1" := "r1" ]};
     benchmark_result_of := tt;
     subtasks_at := 0%nat;
     verify_results_of := {[ "s1" := (true, None) ]} |}.

Definition example_heap : @heap nat := {[ 0%nat := [1%nat; 2%nat] ]}.

(** [runtime._server = server], done from outside: no method of the
    class does it. *)
Definition with_server (server : AppServer) (w : @world nat unit)
  : @world nat unit :=
  mk_world (mk_runtime (_status (self w)) (_fault (self w))
                       (_command (self w)) (_work_dir (self w))
                       (_app_handler (self w)) (Some server)
                       (_server_loop (self w)) (_server_thread (self w)))
           (current w) (workers w) (fresh w) (trace w).

(** A started runtime that was given a server, while its worker is
    serving the entry point, and after the entry point has returned. *)
Definition example_world_serving : @world nat unit :=
  with_server (mk_server 7)
    (execs one_word
           [call_prepare; call_start; worker_begin (mk_thread 0)]
           (LocalhostRuntime_init example_payload)).

Definition example_world_idle : @world nat unit :=
  with_server (mk_server 7)
    (execs one_word
           [call_prepare; call_start; worker_begin (mk_thread 0);
            worker_end (mk_thread 0) Returns]
           (LocalhostRuntime_init example_payload)).

End Localhost.

(* ===================================================================== *)
(** * Properties of helpers.py *)
(* ===================================================================== *)

Module HelpersSpec.
Import Helpers.

(** ** Graceful shutdown *)






(** ** Output relay *)

Section RelaySpec.
Variable decode : bytes -> option string.
Context {pattern : Type}.
Variable match_at : pattern -> string -> nat -> bool.

Implicit Types (line : bytes) (text prefix : string).

(** [decodes line text]: [line] is the UTF-8 encoding of [text]. *)
Local Abbreviation decodes :=
  (fun line text => decode line = Some text).

Local Abbreviation print_body prefix :=
  (fun line =>
     if is_None line then ret (Return tt)
     else bind (decode_utf8 decode line) (fun text =>
          bind (write (prefix +:+ text)) (fun _ => ret Next))).

(** With fuel for every queued line and one more pass, the loop of
    [print_output] writes the queued lines in order and ends on
    [queue.Empty]. *)
Lemma print_loop_drains prefix (q : list bytes) (texts : list string) :
  Forall2 decodes q texts ->
  forall fuel s out,
    (length q < fuel)%nat ->
    for_iter fuel get_nowait is_None (print_body prefix)
             (mk_relay s q out)
    = (Raise (mk_exn QueueEmpty ""),
       mk_relay s [] (out ++ map (String.append prefix) texts)).
Proof.
  induction 1 as [|line text q texts Hd _ IH]; intros fuel s out Hfuel.
  - destruct fuel as [|fuel]; [simpl in Hfuel; lia|].
    simpl. run_py. by rewrite app_nil_r.
  - destruct fuel as [|fuel]; [simpl in Hfuel; lia|].
    simpl in Hfuel.
    cbn [for_iter]. unfold bind at 1. unfold get_nowait at 1.
    cbn [queue stream stdout is_None].
    unfold bind at 1, decode_utf8 at 1. rewrite Hd.
    unfold bind at 1, ret at 1, write at 1, modify at 1.
    unfold bind at 1, ret at 1.
    cbn [queue stream stdout].
    rewrite IH by lia.
    by rewrite <- app_assoc.
Qed.

Lemma print_output_drains prefix (q : list bytes) (texts : list string)
      fuel s out :
  Forall2 decodes q texts ->
  (length q < fuel)%nat ->
  print_output decode fuel prefix (mk_relay s q out)
  = (Ok tt, mk_relay s [] (out ++ map (String.append prefix) texts)).
Proof.
  intros Hq Hfuel. unfold print_output.
  unfold try_except, bind at 1.
  rewrite (print_loop_drains prefix q texts Hq) by done.
  reflexivity.
Qed.

(** Left alone, the reader pushes every line of the stream, in order,
    and ends at the end of the stream, pushing nothing for it. *)
Lemma output_queue_pushes_all (s : list bytes) :
  Forall (fun line => line <> []) s ->
  forall fuel q out,
    (length s < fuel)%nat ->
    output_queue fuel (mk_relay s q out) = (Ok tt, mk_relay [] (q ++ s) out).
Proof.
  unfold output_queue.
  induction 1 as [|line s Hline _ IH]; intros fuel q out Hfuel;
    (destruct fuel as [|fuel]; [simpl in Hfuel; lia|]).
  - cbn. by rewrite app_nil_r.
  - simpl in Hfuel. specialize (IH fuel (q ++ [line]) out ltac:(lia)).
    destruct line as [|b line]; [done|].
    cbn [for_iter]. unfold bind at 2. unfold readline at 1.
    cbn [stream queue stdout is_empty].
    unfold bind at 2. unfold bind at 2. unfold put at 1, modify at 1.
    cbn [stream queue stdout]. unfold ret at 1.
    rewrite <- app_assoc in IH. exact IH.
Qed.

(** [clear_output] leaves the queue empty and writes nothing. *)
Lemma clear_output_empties (q : list bytes) :
  forall fuel s out,
    (length q < fuel)%nat ->
    clear_output fuel (mk_relay s q out) = (Ok tt, mk_relay s [] out).
Proof.
  unfold clear_output.
  induction q as [|line q IH]; intros fuel s out Hfuel;
    (destruct fuel as [|fuel]; [simpl in Hfuel; lia|]).
  - reflexivity.
  - simpl in Hfuel. specialize (IH fuel s out ltac:(lia)).
    cbn [while_true]. unfold try_except in *. unfold bind at 1.
    unfold bind at 1. unfold get_nowait at 1. cbn [stream queue stdout].
    unfold ret at 1. exact IH.
Qed.

(** Every tick keeps the lines in order: what has been written is a
    prefix of the texts of the lines, and the queue followed by the
    rest of the stream is what remains of them. *)
Lemma run_tick_fifo prefix (lines : list bytes) (texts : list string)
      (t : tick) (w : relay) (k : nat) :
  Forall (fun line => line <> []) lines ->
  Forall2 decodes lines texts ->
  stdout w = map (String.append prefix) (take k texts) ->
  queue w ++ stream w = drop k lines ->
  exists w' k',
    run_tick decode prefix t w = (Ok tt, w')
    /\ stdout w' = map (String.append prefix) (take k' texts)
    /\ queue w' ++ stream w' = drop k' lines.
Proof.
  intros Hne Hdec Hout Hrest. destruct w as [s q out]; simpl in *.
  destruct t; simpl.
  - (* the reader moves the next line of the stream into the queue *)
    unfold reader_pass, readline, bind; simpl.
    destruct s as [|line s].
    + eexists _, k. simpl. by repeat split.
    + assert (Hin : lines !! (k + length q)%nat = Some line).
      { rewrite <- lookup_drop, <- Hrest. by apply list_lookup_middle. }
      pose proof (Forall_lookup_1 _ _ _ _ Hne Hin) as Hline.
      destruct line as [|b line]; [done|]. simpl.
      eexists _, k. unfold put, modify; simpl. repeat split; [done|].
      simpl. by rewrite <- app_assoc.
  - (* the consumer writes the oldest queued line *)
    unfold consumer_pass, try_except, get_nowait, bind; simpl.
    destruct q as [|line q]; simpl.
    + eexists _, k. by repeat split.
    + simpl in Hrest.
      assert (Hk : lines !! k = Some line).
      { rewrite <- (Nat.add_0_r k), <- lookup_drop, <- Hrest. done. }
      destruct (Forall2_lookup_l _ _ _ _ _ Hdec Hk) as (text & Ht & Hd).
      unfold decode_utf8. rewrite Hd. unfold ret, write, modify; simpl.
      eexists _, (S k). repeat split; simpl.
      * rewrite (take_S_r _ _ _ Ht), map_app, Hout. done.
      * rewrite (drop_S _ _ _ Hk) in Hrest. by injection Hrest.
Qed.

Lemma run_schedule_fifo prefix (lines : list bytes) (texts : list string)
      (sched : list tick) :
  Forall (fun line => line <> []) lines ->
  Forall2 decodes lines texts ->
  forall (w : relay) (k : nat),
    stdout w = map (String.append prefix) (take k texts) ->
    queue w ++ stream w = drop k lines ->
    exists w' k',
      run_schedule decode prefix sched w = (Ok tt, w')
      /\ stdout w' = map (String.append prefix) (take k' texts)
      /\ queue w' ++ stream w' = drop k' lines.
Proof.
  intros Hne Hdec.
  induction sched as [|t sched IH]; intros w k Hout Hrest.
  - exists w, k. by repeat split.
  - destruct (run_tick_fifo prefix lines texts t w k Hne Hdec Hout Hrest)
      as (w1 & k1 & Hrun & Hout1 & Hrest1).
    destruct (IH w1 k1 Hout1 Hrest1) as (w2 & k2 & Hrun2 & Hout2 & Hrest2).
    exists w2, k2. split; [|done].
    simpl. unfold bind. by rewrite Hrun.
Qed.

(** A call of [print_output] is a run of consumer ticks: one for
    every queued line and the one that finds the queue empty. *)
Lemma print_output_as_ticks prefix (q : list bytes) :
  forall fuel s out,
    (length q < fuel)%nat ->
    print_output decode fuel prefix (mk_relay s q out)
    = run_schedule decode prefix (replicate (S (length q)) Consumer)
                   (mk_relay s q out).
Proof.
  induction q as [|line q IH]; intros fuel s out Hfuel;
    (destruct fuel as [|fuel]; [simpl in Hfuel; lia|]).
  - reflexivity.
  - simpl in Hfuel.
    specialize (IH fuel s (out ++ [prefix +:+ default "" (decode line)])
                   ltac:(lia)).
    change (replicate (S (length (line :: q))) Consumer)
      with (Consumer :: replicate (S (length q)) Consumer).
    cbn [run_schedule run_tick].
    unfold print_output, consumer_pass in *.
    unfold try_except, bind, get_nowait, decode_utf8 in *.
    cbn [for_iter queue stream stdout is_None] in *.
    unfold bind, get_nowait, decode_utf8 in *.
    cbn [queue stream stdout] in *.
    destruct (decode line) as [text|]; [|reflexivity].
    unfold ret, write, modify in *. cbn [queue stream stdout default] in *.
    exact IH.
Qed.

(** The loop of the reader is a run of reader ticks: one for every line
    of the stream and the one that finds its end. *)
Lemma output_queue_as_ticks prefix (s : list bytes) :
  Forall (fun line => line <> []) s ->
  forall fuel q out,
    (length s < fuel)%nat ->
    output_queue fuel (mk_relay s q out)
    = run_schedule decode prefix (replicate (S (length s)) Reader)
                   (mk_relay s q out).
Proof.
  intros Hs fuel q out Hfuel.
  rewrite (output_queue_pushes_all s Hs fuel q out Hfuel).
  clear fuel Hfuel. revert q.
  induction Hs as [|line s Hline _ IH]; intros q.
  - cbn. by rewrite app_nil_r.
  - change (replicate (S (length (line :: s))) Reader)
      with (Reader :: replicate (S (length s)) Reader).
    cbn [run_schedule run_tick]. unfold bind at 1, reader_pass.
    unfold bind at 1, readline at 1. cbn [stream queue stdout].
    destruct line as [|b line]; [done|]. cbn [is_empty].
    unfold put, modify. cbn [stream queue stdout].
    rewrite <- IH. by rewrite <- app_assoc.
Qed.

(** A tick of the reader takes the next line off the stream, a tick of
    the consumer leaves the stream alone. *)
Lemma run_tick_reads prefix (lines : list bytes) (t : tick) (w : relay)
      (r : nat) :
  Forall (fun line => line <> []) lines ->
  stream w = drop r lines ->
  stream (snd (run_tick decode prefix t w))
  = drop (r + reader_ticks [t]) lines.
Proof.
  intros Hne Hs. destruct w as [s q out]; simpl in Hs. subst s.
  destruct t; cbn [reader_ticks run_tick].
  - unfold reader_pass, bind, readline. cbn [stream queue stdout].
    destruct (drop r lines) as [|line s] eqn:Hd.
    + simpl. symmetry. apply drop_ge.
      apply drop_nil_inv in Hd. lia.
    + assert (Hr : lines !! r = Some line).
      { rewrite <- (Nat.add_0_r r), <- lookup_drop, Hd. done. }
      pose proof (Forall_lookup_1 _ _ _ _ Hne Hr) as Hline.
      destruct line as [|b line]; [done|]. simpl.
      rewrite (drop_S _ _ _ Hr) in Hd. injection Hd as <-.
      by rewrite Nat.add_1_r.
  - rewrite Nat.add_0_r.
    unfold consumer_pass, try_except, bind, get_nowait.
    cbn [stream queue stdout].
    destruct q as [|line q]; [done|].
    unfold decode_utf8. by destruct (decode line).
Qed.

Lemma run_schedule_reads prefix (lines : list bytes) (texts : list string)
      (sched : list tick) :
  Forall (fun line => line <> []) lines ->
  Forall2 decodes lines texts ->
  forall (w : relay) (k r : nat),
    stdout w = map (String.append prefix) (take k texts) ->
    queue w ++ stream w = drop k lines ->
    stream w = drop r lines ->
    exists w' k',
      run_schedule decode prefix sched w = (Ok tt, w')
      /\ stdout w' = map (String.append prefix) (take k' texts)
      /\ queue w' ++ stream w' = drop k' lines
      /\ stream w' = drop (r + reader_ticks sched) lines.
Proof.
  intros Hne Hdec.
  induction sched as [|t sched IH]; intros w k r Hout Hrest Hs.
  - exists w, k. rewrite Nat.add_0_r. by repeat split.
  - destruct (run_tick_fifo prefix lines texts t w k Hne Hdec Hout Hrest)
      as (w1 & k1 & Hrun & Hout1 & Hrest1).
    pose proof (run_tick_reads prefix lines t w r Hne Hs) as Hs1.
    rewrite Hrun in Hs1. simpl in Hs1.
    destruct (IH w1 k1 _ Hout1 Hrest1 Hs1)
      as (w2 & k2 & Hrun2 & Hout2 & Hrest2 & Hs2).
    exists w2, k2. split; [|split; [done|split; [done|]]].
    + simpl. unfold bind. by rewrite Hrun.
    + rewrite Hs2. f_equal. destruct t; simpl; lia.
Qed.

(** C8, for lines of text. Let the process write the lines [lines], none
    empty and each the UTF-8 encoding of a text. The reader's loop
    [output_queue] is a run of reader ticks and, left alone, pushes all
    of the lines in order. Let its ticks and the consumer's polls
    interleave in any way ([sched]): nothing goes wrong; the reader has
    read as many lines as it was given ticks; what has been written is an
    initial part of the lines in the order they were emitted; and nothing
    is lost or repeated, the rest being in the queue or still in the
    stream. Once the reader has had a tick for every line it has pushed
    them all, and then one [print_output], itself a run of consumer
    ticks, empties the queue: what has been written is exactly the
    lines, in order. *)
Theorem relay_is_fifo prefix (lines : list bytes) (texts : list string)
        (sched : list tick) :
  Forall (fun line => line <> []) lines ->
  Forall2 decodes lines texts ->
  (forall fuel,
      (length lines < fuel)%nat ->
      output_queue fuel (get_output_queue lines)
      = run_schedule decode prefix (replicate (S (length lines)) Reader)
                     (get_output_queue lines)
      /\ output_queue fuel (get_output_queue lines)
         = (Ok tt, mk_relay [] lines []))
  /\ exists w k,
      run_schedule decode prefix sched (get_output_queue lines) = (Ok tt, w)
      /\ stdout w = map (String.append prefix) (take k texts)
      /\ queue w ++ stream w = drop k lines
      /\ stream w = drop (reader_ticks sched) lines
      /\ ((length lines <= reader_ticks sched)%nat ->
          stream w = []
          /\ forall fuel,
              (length (queue w) < fuel)%nat ->
              print_output decode fuel prefix w
              = run_schedule decode prefix
                             (replicate (S (length (queue w))) Consumer) w
              /\ print_output decode fuel prefix w
                 = (Ok tt,
                    mk_relay [] [] (map (String.append prefix) texts))).
Proof.
  intros Hne Hdec. split.
  - intros fuel Hfuel. unfold get_output_queue. split.
    + by apply output_queue_as_ticks.
    + by rewrite (output_queue_pushes_all lines Hne fuel [] [] Hfuel).
  - destruct (run_schedule_reads prefix lines texts sched Hne Hdec
                                 (get_output_queue lines) 0%nat 0%nat)
      as (w & k & Hrun & Hout & Hrest & Hs); [by rewrite take_0|done|done|].
    exists w, k. simpl in Hs.
    split; [done|]. split; [done|]. split; [done|]. split; [done|].
    intros Hticks.
    assert (Hend : stream w = []) by (rewrite Hs; by apply drop_ge).
    split; [exact Hend|].
    intros fuel Hfuel. destruct w as [s q out]; simpl in *.
    clear Hs Hrun. subst s.
    split; [by apply print_output_as_ticks|].
    rewrite app_nil_r in Hrest. subst q out.
    rewrite (print_output_drains prefix _ (drop k texts));
      [|by apply Forall2_drop|done].
    by rewrite <- map_app, take_drop.
Qed.

(** *** Searching the queue *)

Local Abbreviation search_body p :=
  (fun line =>
     if negb (is_empty line) then
       bind (decode_utf8 decode line) (fun text =>
       match re_match match_at p text with
       | Some m => ret (Return m)
       | None => ret Next
       end)
     else ret Next).

(** [no_match p line]: [line] is text that the pattern does not match
    (as [re.match] does, at its beginning). *)
Local Abbreviation no_match p :=
  (fun line =>
     exists text, decode line = Some text /\ match_at p text 0%nat = false).

(** One pass of the loop body. *)
Lemma search_body_no_match (p : pattern) line (w : relay) :
  no_match p line -> search_body p line w = (Ok Next, w).
Proof.
  intros (text & Hd & Hm).
  destruct (negb (is_empty line)); [|reflexivity].
  unfold bind, decode_utf8, re_match. rewrite Hd. unfold ret.
  by rewrite Hm.
Qed.

Lemma search_body_match (p : pattern) line text (w : relay) :
  line <> [] ->
  decode line = Some text ->
  match_at p text 0%nat = true ->
  search_body p line w = (Ok (Return (mk_match p text 0%nat)), w).
Proof.
  intros Hne Hd Hm. destruct line as [|b line]; [done|].
  cbn [is_empty negb].
  unfold bind, decode_utf8, re_match. rewrite Hd. unfold ret.
  by rewrite Hm.
Qed.

(** The loop passes over lines that do not match, removing them. *)
Lemma search_loop_skips (p : pattern) (pre : list bytes) :
  Forall (no_match p) pre ->
  forall fuel s rest out,
    for_iter (length pre + fuel) get_nowait is_None (search_body p)
             (mk_relay s (pre ++ rest) out)
    = for_iter fuel get_nowait is_None (search_body p)
               (mk_relay s rest out).
Proof.
  induction 1 as [|line pre Hline _ IH]; intros fuel s rest out.
  - reflexivity.
  - cbn [length Nat.add app for_iter].
    unfold bind at 1. unfold get_nowait at 1.
    cbn [queue stream stdout is_None].
    unfold bind at 1. rewrite (search_body_no_match p line _ Hline).
    apply IH.
Qed.

(** With no matching line in the queue, the search empties it. *)
Lemma search_output_no_match (p : pattern) (q : list bytes) fuel s out :
  Forall (no_match p) q ->
  (length q < fuel)%nat ->
  search_output decode match_at fuel p (mk_relay s q out)
  = (Ok None, mk_relay s [] out).
Proof.
  intros Hq Hfuel.
  unfold search_output, try_except.
  replace fuel with (length q + S (fuel - S (length q)))%nat by lia.
  pose proof (search_loop_skips p q Hq (S (fuel - S (length q))) s [] out)
    as Hskip.
  rewrite app_nil_r in Hskip. rewrite Hskip.
  reflexivity.
Qed.


(** A match that the loop returns was found by [re.match] on the text
    of a queued line. *)
Lemma search_loop_match (p : pattern) (fuel : nat) :
  forall (w w' : relay) (m : Match pattern),
    for_iter fuel get_nowait is_None (search_body p) w = (Ok (Some m), w') ->
    m = mk_match p (m_string m) 0%nat
    /\ match_at p (m_string m) 0%nat = true
    /\ exists line, In line (queue w) /\ decode line = Some (m_string m).
Proof.
  induction fuel as [|fuel IH]; intros [s q out] w' m Hrun.
  - discriminate.
  - cbn [for_iter] in Hrun. unfold bind at 1, get_nowait at 1 in Hrun.
    cbn [queue stream stdout is_None] in Hrun.
    destruct q as [|line q]; [discriminate|].
    unfold bind at 1 in Hrun.
    destruct (negb (is_empty line)).
    + unfold bind at 1, decode_utf8 at 1 in Hrun.
      destruct (decode line) as [text|] eqn:Hd; [|discriminate].
      unfold ret at 1, re_match in Hrun.
      destruct (match_at p text 0%nat) eqn:Hm.
      * unfold ret in Hrun. injection Hrun as <- _. simpl.
        repeat split; [done|]. exists line. simpl. auto.
      * unfold ret at 1 in Hrun.
        destruct (IH _ _ _ Hrun) as (? & ? & l & Hl & ?).
        repeat split; try done. exists l. simpl in *. auto.
    + unfold ret at 1 in Hrun.
      destruct (IH _ _ _ Hrun) as (? & ? & l & Hl & ?).
      repeat split; try done. exists l. simpl in *. auto.
Qed.

(** C10. [search_output] matches with [re.match], which looks for the
    pattern at the first character of a line and nowhere else. A match
    it returns starts at index 0 of the text of a queued line, where
    the pattern does match. A line in which the pattern matches at
    some later index only is not found: the call returns [None], and
    the line has left the queue all the same. *)
Theorem search_output_matches_at_line_start (p : pattern) :
  (forall (fuel : nat) (w w' : relay) (m : Match pattern),
      search_output decode match_at fuel p w = (Ok (Some m), w') ->
      m_start m = 0%nat
      /\ match_at p (m_string m) (m_start m) = true
      /\ exists line, In line (queue w) /\ decode line = Some (m_string m))
  /\ (forall (fuel : nat) (s : list bytes) (out : list string)
             (line : bytes) (text : string) (i : nat),
         decode line = Some text ->
         match_at p text 0%nat = false ->
         (0 < i)%nat ->
         match_at p text i = true ->
         (1 < fuel)%nat ->
         search_output decode match_at fuel p
                       (mk_relay s [line] out)
         = (Ok None, mk_relay s [] out)).
Proof.
  split.
  - intros fuel w w' m Hrun.
    unfold search_output, try_except in Hrun.
    destruct (for_iter fuel get_nowait is_None (search_body p) w)
      as [[r|e|] w1] eqn:Hloop.
    + injection Hrun as -> ->.
      destruct (search_loop_match p fuel _ _ _ Hloop) as (Hm & Hat & Hl).
      rewrite Hm. simpl. auto.
    + unfold except in Hrun.
      destruct (isinstance e QueueEmpty); discriminate.
    + discriminate.
  - intros fuel s out line text i Hd Hm0 Hi Hmi Hfuel.
    apply search_output_no_match.
    + constructor; [|constructor]. eauto.
    + simpl. lia.
Qed.

(** *** Further properties of the relay *)


(** The loop of [print_output] writes the lines it can decode and goes
    on with the rest. *)
Lemma print_loop_writes prefix (pre : list bytes) (texts : list string) :
  Forall2 decodes pre texts ->
  forall fuel s rest out,
    for_iter (length pre + fuel) get_nowait is_None (print_body prefix)
             (mk_relay s (pre ++ rest) out)
    = for_iter fuel get_nowait is_None (print_body prefix)
               (mk_relay s rest (out ++ map (String.append prefix) texts)).
Proof.
  induction 1 as [|line text pre texts Hd _ IH]; intros fuel s rest out.
  - simpl. by rewrite app_nil_r.
  - cbn [length Nat.add app for_iter].
    unfold bind at 1. unfold get_nowait at 1.
    cbn [queue stream stdout is_None].
    unfold bind at 1, decode_utf8 at 1. rewrite Hd.
    unfold bind at 1, ret at 1, write at 1, modify at 1.
    unfold bind at 1, ret at 1.
    cbn [queue stream stdout].
    rewrite IH. by rewrite <- app_assoc.
Qed.

(** X2. When a queued line is not valid UTF-8, [print_output] writes the
    lines before it, takes the line off the queue and raises
    [UnicodeDecodeError]: the line is written nowhere, and the lines
    after it stay queued. *)
Theorem print_output_stops_at_undecodable_line
        prefix (pre : list bytes) (texts : list string) (bad : bytes)
        (post : list bytes) (fuel : nat) (s : list bytes)
        (out : list string) :
  Forall2 decodes pre texts ->
  decode bad = None ->
  (length pre < fuel)%nat ->
  print_output decode fuel prefix (mk_relay s (pre ++ bad :: post) out)
  = (Raise (mk_exn UnicodeDecodeError ""),
     mk_relay s post (out ++ map (String.append prefix) texts)).
Proof.
  intros Hpre Hbad Hfuel. unfold print_output, try_except.
  replace fuel with (length pre + S (fuel - S (length pre)))%nat by lia.
  unfold bind at 1. rewrite (print_loop_writes prefix pre texts Hpre).
  cbn [for_iter]. unfold bind at 1, get_nowait at 1.
  cbn [queue stream stdout is_None].
  unfold bind at 1, decode_utf8 at 1. rewrite Hbad. reflexivity.
Qed.

(** X3. [clear_output] takes every queued line off the queue, whatever
    the lines are, writes nothing and raises nothing. On the empty queue
    it leaves, [print_output] writes nothing and [search_output] finds
    nothing, and both return at their first [get_nowait]. *)
Theorem clear_output_leaves_nothing
        (q : list bytes) (fuel : nat) (s : list bytes) (out : list string) :
  (length q < fuel)%nat ->
  clear_output fuel (mk_relay s q out) = (Ok tt, mk_relay s [] out)
  /\ (forall fuel' prefix,
         (0 < fuel')%nat ->
         print_output decode fuel' prefix (mk_relay s [] out)
         = (Ok tt, mk_relay s [] out))
  /\ (forall fuel' (p : pattern),
         (0 < fuel')%nat ->
         search_output decode match_at fuel' p (mk_relay s [] out)
         = (Ok None, mk_relay s [] out)).
Proof.
  intros Hfuel. split; [by apply clear_output_empties|]. split.
  - intros [|fuel'] prefix Hf; [lia|]. reflexivity.
  - intros [|fuel'] p Hf; [lia|]. reflexivity.
Qed.

(** The loop passes over empty lines without decoding them. *)
Lemma search_loop_skips_empty (p : pattern) (pre : list bytes) :
  Forall (fun line => line = []) pre ->
  forall fuel s rest out,
    for_iter (length pre + fuel) get_nowait is_None (search_body p)
             (mk_relay s (pre ++ rest) out)
    = for_iter fuel get_nowait is_None (search_body p)
               (mk_relay s rest out).
Proof.
  induction 1 as [|line pre -> _ IH]; intros fuel s rest out.
  - reflexivity.
  - cbn [length Nat.add app for_iter].
    unfold bind at 1. unfold get_nowait at 1.
    cbn [queue stream stdout is_None is_empty negb].
    unfold bind at 1, ret at 1. apply IH.
Qed.

(** X4. An empty line never matches, whatever the pattern and even when
    the pattern matches the empty text: [search_output] takes it off the
    queue without decoding or matching it. A queue of empty lines gives
    [None], and empty lines before a matching line are passed over. *)
Theorem search_output_passes_over_empty_lines
        (p : pattern) (fuel : nat) (s : list bytes) (out : list string) :
  (forall q : list bytes,
      Forall (fun line => line = []) q ->
      (length q < fuel)%nat ->
      search_output decode match_at fuel p (mk_relay s q out)
      = (Ok None, mk_relay s [] out))
  /\ (forall (pre : list bytes) (line_k : bytes) (text_k : string)
             (post : list bytes),
         Forall (fun line => line = []) pre ->
         line_k <> [] ->
         decode line_k = Some text_k ->
         match_at p text_k 0%nat = true ->
         (length pre < fuel)%nat ->
         search_output decode match_at fuel p
                       (mk_relay s (pre ++ line_k :: post) out)
         = (Ok (Some (mk_match p text_k 0%nat)), mk_relay s post out)).
Proof.
  split.
  - intros q Hq Hfuel. unfold search_output, try_except.
    replace fuel with (length q + S (fuel - S (length q)))%nat by lia.
    pose proof (search_loop_skips_empty p q Hq (S (fuel - S (length q)))
                                        s [] out) as Hskip.
    rewrite app_nil_r in Hskip. rewrite Hskip. reflexivity.
  - intros pre line_k text_k post Hpre Hne Hd Hm Hfuel.
    unfold search_output, try_except.
    replace fuel with (length pre + S (fuel - S (length pre)))%nat by lia.
    rewrite (search_loop_skips_empty p pre Hpre).
    cbn [for_iter]. unfold bind at 1, get_nowait at 1.
    cbn [queue stream stdout is_None].
    unfold bind at 1.
    rewrite (search_body_match p line_k text_k _ Hne Hd Hm).
    reflexivity.
Qed.

(** X5. When a line that is not valid UTF-8 comes before any matching
    line, [search_output] raises [UnicodeDecodeError]; the lines up to
    and including that one have left the queue and the lines after it
    stay queued. *)
Theorem search_output_stops_at_undecodable_line
        (p : pattern) (pre : list bytes) (bad : bytes) (post : list bytes)
        (fuel : nat) (s : list bytes) (out : list string) :
  Forall (no_match p) pre ->
  bad <> [] ->
  decode bad = None ->
  (length pre < fuel)%nat ->
  search_output decode match_at fuel p
                (mk_relay s (pre ++ bad :: post) out)
  = (Raise (mk_exn UnicodeDecodeError ""), mk_relay s post out).
Proof.
  intros Hpre Hne Hbad Hfuel. unfold search_output, try_except.
  replace fuel with (length pre + S (fuel - S (length pre)))%nat by lia.
  rewrite (search_loop_skips p pre Hpre).
  cbn [for_iter]. unfold bind at 1, get_nowait at 1.
  cbn [queue stream stdout is_None].
  destruct bad as [|b bad]; [done|]. cbn [is_empty negb].
  unfold bind at 1. unfold bind at 1, decode_utf8 at 1. rewrite Hbad.
  reflexivity.
Qed.

(** However the loop of [search_output] ends, it has only taken lines
    off the front of the queue. *)
Lemma search_loop_front (p : pattern) (fuel : nat) :
  forall (w w' : relay) (r : result (option (Match pattern))),
    for_iter fuel get_nowait is_None (search_body p) w = (r, w') ->
    stream w' = stream w /\ stdout w' = stdout w
    /\ r <> Ok None
    /\ exists removed,
        queue w = removed ++ queue w'
        /\ (forall e, r = Raise e -> exc_type e = QueueEmpty -> queue w' = [])
        /\ (forall m, r = Ok (Some m) ->
                      exists gone line,
                        removed = gone ++ [line] /\ line <> []
                        /\ decode line = Some (m_string m)
                        /\ match_at p (m_string m) 0%nat = true).
Proof.
  induction fuel as [|fuel IH]; intros [s q out] w' r Hrun.
  - injection Hrun as <- <-. repeat split; [done|].
    exists []. repeat split; intros; discriminate.
  - cbn [for_iter] in Hrun. unfold bind at 1, get_nowait at 1 in Hrun.
    cbn [queue stream stdout is_None] in Hrun.
    destruct q as [|line q].
    { injection Hrun as <- <-. repeat split; [done|].
      exists []. repeat split; intros; discriminate. }
    unfold bind at 1 in Hrun.
    destruct line as [|b line]; cbn [is_empty negb] in Hrun.
    + unfold ret at 1 in Hrun.
      destruct (IH _ _ _ Hrun) as (Hs & Ho & Hr & removed & Hq & He & Hm).
      simpl in *. repeat split; try done.
      exists ([] :: removed). rewrite Hq. repeat split; [done|].
      intros m Hrm. destruct (Hm m Hrm) as (gone & l & -> & ? & ? & ?).
      exists ([] :: gone), l. by repeat split.
    + unfold bind at 1, decode_utf8 at 1 in Hrun.
      destruct (decode (b :: line)) as [text|] eqn:Hd.
      * unfold ret at 1, re_match in Hrun.
        destruct (match_at p text 0%nat) eqn:Hat.
        -- unfold ret in Hrun. injection Hrun as <- <-. simpl.
           repeat split; [done|].
           exists [b :: line]. repeat split; try (intros; discriminate).
           intros m [= <-]. exists [], (b :: line). simpl.
           by repeat split.
        -- unfold ret at 1 in Hrun.
           destruct (IH _ _ _ Hrun) as (Hs & Ho & Hr & removed & Hq & He & Hm).
           simpl in *. repeat split; try done.
           exists ((b :: line) :: removed). rewrite Hq.
           repeat split; [done|].
           intros m Hrm. destruct (Hm m Hrm) as (gone & l & -> & ? & ? & ?).
           exists ((b :: line) :: gone), l. by repeat split.
      * injection Hrun as <- <-. simpl. repeat split; [done|].
        exists [b :: line]. repeat split; intros; by simplify_eq/=.
Qed.

(** X6. Whatever [search_output] returns or raises, and whatever the
    queued lines are, it has only taken lines off the front of the
    queue, and has written nothing and read nothing from the stream.
    When it returns [None] the queue is empty; when it returns a match,
    the last line it took is the matched one. *)
Theorem search_output_only_takes_from_the_front
        (p : pattern) (fuel : nat) (w : relay) :
  let r := fst (search_output decode match_at fuel p w) in
  let w' := snd (search_output decode match_at fuel p w) in
  stream w' = stream w /\ stdout w' = stdout w
  /\ exists removed,
      queue w = removed ++ queue w'
      /\ (r = Ok None -> queue w' = [])
      /\ (forall m, r = Ok (Some m) ->
                    exists gone line,
                      removed = gone ++ [line] /\ line <> []
                      /\ decode line = Some (m_string m)
                      /\ match_at p (m_string m) 0%nat = true).
Proof.
  unfold search_output, try_except.
  destruct (for_iter fuel get_nowait is_None (search_body p) w)
    as [r0 w0] eqn:Hloop.
  destruct (search_loop_front p fuel _ _ _ Hloop)
    as (Hs & Ho & Hr & removed & Hq & He & Hm).
  assert (Hfront : forall r1 w1,
             stream w1 = stream w -> stdout w1 = stdout w ->
             queue w = removed ++ queue w1 ->
             (r1 = Ok None -> queue w1 = []) ->
             (forall m, r1 = Ok (Some m) -> r0 = Ok (Some m)) ->
             stream w1 = stream w /\ stdout w1 = stdout w
             /\ exists removed,
                 queue w = removed ++ queue w1
                 /\ (r1 = Ok None -> queue w1 = [])
                 /\ (forall m, r1 = Ok (Some m) ->
                               exists gone line,
                                 removed = gone ++ [line] /\ line <> []
                                 /\ decode line = Some (m_string m)
                                 /\ match_at p (m_string m) 0%nat = true)).
  { intros r1 w1 H1 H2 H3 H4 H5. split; [done|]. split; [done|].
    exists removed. split; [done|]. split; [done|].
    intros m Hr1. apply Hm. by apply H5. }
  destruct r0 as [[m|]|e|]; simpl.
  - apply Hfront; try done.
  - done.
  - unfold except, isinstance.
    destruct (bool_decide (exc_type e = QueueEmpty)) eqn:Hdec; simpl.
    + apply bool_decide_eq_true in Hdec.
      apply Hfront; try done. intros _. by apply (He e).
    + apply Hfront; try done.
  - apply Hfront; try done.
Qed.

End RelaySpec.

(** One line that holds the byte [0xff], which no UTF-8 text has: the
    reader pushes it, the drain takes it off the queue and raises, and the
    next drain finds the queue empty. One line was emitted and none was
    written. *)
Lemma relay_loses_undecodable_line :
  output_queue 2 (get_output_queue [[xff; x0a]])
  = (Ok tt, mk_relay [] [[xff; x0a]] [])
  /\ print_output decode_ascii 2 "node: " (mk_relay [] [[xff; x0a]] [])
     = (Raise (mk_exn UnicodeDecodeError ""), mk_relay [] [] [])
  /\ print_output decode_ascii 2 "node: " (mk_relay [] [] [])
     = (Ok tt, mk_relay [] [] []).
Proof.
  repeat split.
Qed.

(** Two lines pushed and polled in turn, with one poll on an empty
    queue in between; the reader has then had its two ticks, and the
    last drain leaves both lines written. *)
Lemma relay_is_fifo_witness :
  exists w,
    run_schedule decode_ascii "node: "
                 [Reader; Consumer; Consumer; Reader]
                 (get_output_queue [line_of "one"; line_of "two"])
    = (Ok tt, w)
    /\ stream w = []
    /\ print_output decode_ascii (S (length (queue w))) "node: " w
       = (Ok tt,
          mk_relay [] []
            (map (String.append "node: ")
                 [string_of_list_byte (line_of "one");
                  string_of_list_byte (line_of "two")])).
Proof.
  destruct (relay_is_fifo
              decode_ascii "node: " [line_of "one"; line_of "two"]
              [string_of_list_byte (line_of "one");
               string_of_list_byte (line_of "two")]
              [Reader; Consumer; Consumer; Reader])
    as (_ & w & k & Hrun & _ & _ & _ & Hall).
  - repeat constructor; discriminate.
  - repeat constructor.
  - destruct Hall as (Hend & Hdrain); [simpl; lia|].
    exists w. split; [exact Hrun|]. split; [exact Hend|].
    apply Hdrain. lia.
Defined.


(** The pattern [b] occurs in the line [ab] at index 1 only. *)
Lemma search_output_matches_at_line_start_witness :
  search_output decode_ascii literal_match_at 2 "b"
                (mk_relay [] [line_of "ab"] [])
  = (Ok None, mk_relay [] [] []).
Proof.
  apply (proj2 (search_output_matches_at_line_start
                  decode_ascii literal_match_at "b")
               2%nat [] [] (line_of "ab")
               (string_of_list_byte (line_of "ab")) 1%nat).
  - reflexivity.
  - reflexivity.
  - lia.
  - reflexivity.
  - lia.
Defined.


(** The second line holds the byte [0xff], which no UTF-8 text has. *)
Lemma print_output_stops_at_undecodable_line_witness :
  print_output decode_ascii 2 "node: "
               (mk_relay [] ([line_of "ok"] ++ [xff; x0a] :: [line_of "next"])
                         [])
  = (Raise (mk_exn UnicodeDecodeError ""),
     mk_relay [] [line_of "next"]
              ([] ++ map (String.append "node: ")
                         [string_of_list_byte (line_of "ok")])).
Proof.
  apply print_output_stops_at_undecodable_line.
  - repeat constructor.
  - reflexivity.
  - simpl. lia.
Defined.

Lemma clear_output_leaves_nothing_witness :
  clear_output 3 (mk_relay [] [[xff; x0a]; line_of "a"] ["seen"])
  = (Ok tt, mk_relay [] [] ["seen"])
  /\ print_output decode_ascii 1 "node: " (mk_relay [] [] ["seen"])
     = (Ok tt, mk_relay [] [] ["seen"])
  /\ search_output decode_ascii literal_match_at 1 "a"
                   (mk_relay [] [] ["seen"])
     = (Ok None, mk_relay [] [] ["seen"]).
Proof.
  destruct (clear_output_leaves_nothing
              decode_ascii literal_match_at
              [[xff; x0a]; line_of "a"] 3 [] ["seen"])
    as (Hclear & Hprint & Hsearch); [simpl; lia|].
  split; [exact Hclear|]. split.
  - apply Hprint. lia.
  - apply Hsearch. lia.
Defined.

(** The empty pattern matches the empty text, and yet an empty line is
    not found. *)
Lemma search_output_passes_over_empty_lines_witness :
  literal_match_at "" "" 0 = true
  /\ decode_ascii [] = Some ""
  /\ search_output decode_ascii literal_match_at 3 ""
                   (mk_relay [] [[]; []] [])
     = (Ok None, mk_relay [] [] [])
  /\ search_output decode_ascii literal_match_at 3 "b"
                   (mk_relay [] ([[]] ++ line_of "bc" :: [line_of "cd"]) [])
     = (Ok (Some (mk_match "b" (string_of_list_byte (line_of "bc")) 0%nat)),
        mk_relay [] [line_of "cd"] []).
Proof.
  split; [reflexivity|]. split; [reflexivity|]. split.
  - apply (proj1 (search_output_passes_over_empty_lines
                    decode_ascii literal_match_at "" 3 [] [])).
    + repeat constructor.
    + simpl. lia.
  - apply (proj2 (search_output_passes_over_empty_lines
                    decode_ascii literal_match_at "b" 3 [] [])).
    + repeat constructor.
    + discriminate.
    + reflexivity.
    + reflexivity.
    + simpl. lia.
Defined.

Lemma search_output_stops_at_undecodable_line_witness :
  search_output decode_ascii literal_match_at 2 "b"
                (mk_relay [] ([line_of "ab"] ++ [xff; x0a] :: [line_of "bc"])
                          [])
  = (Raise (mk_exn UnicodeDecodeError ""), mk_relay [] [line_of "bc"] []).
Proof.
  apply search_output_stops_at_undecodable_line.
  - repeat constructor. exists (string_of_list_byte (line_of "ab")).
    split; reflexivity.
  - discriminate.
  - reflexivity.
  - simpl. lia.
Defined.

Lemma search_output_only_takes_from_the_front_witness :
  exists removed,
    [line_of "ab"; line_of "bc"; line_of "cd"]
    = removed
        ++ queue (snd (search_output
                         decode_ascii literal_match_at 3 "b"
                         (mk_relay [] [line_of "ab"; line_of "bc";
                                       line_of "cd"] [])))
    /\ exists gone,
        removed = gone ++ [line_of "bc"].
Proof.
  destruct (search_output_only_takes_from_the_front
              decode_ascii literal_match_at "b" 3
              (mk_relay [] [line_of "ab"; line_of "bc"; line_of "cd"] []))
    as (_ & _ & removed & Hq & _ & Hm).
  exists removed. split; [exact Hq|].
  destruct (Hm (mk_match "b" (string_of_list_byte (line_of "bc")) 0%nat)
               eq_refl)
    as (gone & line & Hr & _ & Hd & _).
  exists gone. rewrite Hr. f_equal. f_equal.
  rewrite Hr in Hq. simpl in Hq.
  assert (Hlen : length gone = 1%nat).
  { apply (f_equal length) in Hq. rewrite !length_app in Hq.
    simpl in Hq. lia. }
  destruct gone as [|g [|g' gone]]; simpl in Hlen; try lia.
  simpl in Hq. by injection Hq as _ <-.
Defined.

End HelpersSpec.

(* ===================================================================== *)
(** * Properties of localhost.py *)
(* ===================================================================== *)

Module LocalhostSpec.
Import Localhost.

Section HandlerSpec.
Context {Subtask float dict : Type}.

Local Abbreviation handler := (@LocalhostAppHandler Subtask float).

(** C6. A handler made from prerequisites whose subtasks are [A; B]
    reports pending subtasks, hands out [A], reports pending subtasks
    again, hands out [B], reports none pending, and a third
    [next_subtask] raises [IndexError]. *)
Theorem next_subtask_in_order
        (cr : gmap string string) (br : float)
        (vr : gmap string (bool * option string))
        (A B : Subtask) (dir : Path) :
  let h0 :=
    LocalhostAppHandler_init
      {| compute_results := cr; benchmark_result := br;
         subtasks := [A; B]; verify_results := vr |} in
  exists h1 h2 h3 e,
    has_pending_subtasks dir h0 = (Ok true, h0)
    /\ next_subtask dir h0 = (Ok A, h1)
    /\ has_pending_subtasks dir h1 = (Ok true, h1)
    /\ next_subtask dir h1 = (Ok B, h2)
    /\ has_pending_subtasks dir h2 = (Ok false, h2)
    /\ next_subtask dir h2 = (Raise e, h3)
    /\ exc_type e = IndexError
    /\ _subtasks h1 = [B] /\ _subtasks h2 = [] /\ _subtasks h3 = [].
Proof.
  intros h0. do 4 eexists.
  repeat split; reflexivity.
Qed.

(** C7. [compute] answers the entry of [_compute_results] under the
    subtask id when there is one and raises [KeyError] otherwise;
    [verify] does the same on [_verify_results]; both leave the
    handler as it was. *)
Theorem compute_verify_lookup (h : handler) (dir : Path)
        (subtask_id : string) (params : dict) :
  (forall r, _compute_results h !! subtask_id = Some r ->
             compute dir subtask_id params h = (Ok r, h))
  /\ (_compute_results h !! subtask_id = None ->
      exists e, compute dir subtask_id params h = (Raise e, h)
                /\ exc_type e = KeyError)
  /\ (forall r, _verify_results h !! subtask_id = Some r ->
                verify dir subtask_id h = (Ok r, h))
  /\ (_verify_results h !! subtask_id = None ->
      exists e, verify dir subtask_id h = (Raise e, h)
                /\ exc_type e = KeyError).
Proof.
  unfold compute, verify, getitem. run_py.
  repeat split.
  - intros r ->. reflexivity.
  - intros ->. eexists. split; reflexivity.
  - intros r ->. reflexivity.
  - intros ->. eexists. split; reflexivity.
Qed.
(** *** Further properties of the handler *)

Local Abbreviation verb := (@verb dict).
Local Abbreviation answer := (@answer Subtask float).

(** X7. [has_pending_subtasks] answers true exactly when a
    [next_subtask] would hand out a subtask, and false exactly when it
    would raise [IndexError]; a [next_subtask] that raises leaves the
    handler as it was. *)
Theorem has_pending_subtasks_tells_next_subtask
        (h : handler) (dir dir' : Path) :
  (has_pending_subtasks dir h = (Ok true, h)
   <-> exists x h', next_subtask dir' h = (Ok x, h'))
  /\ (has_pending_subtasks dir h = (Ok false, h)
      <-> exists e, next_subtask dir' h = (Raise e, h)
                    /\ exc_type e = IndexError).
Proof.
  destruct h as [cr br l vr].
  unfold has_pending_subtasks, next_subtask, pop0. run_py.
  destruct l as [|x rest]; split; split.
  - discriminate.
  - intros (x & h' & H). discriminate.
  - intros _. eexists. split; reflexivity.
  - reflexivity.
  - intros _. by eexists _, _.
  - reflexivity.
  - discriminate.
  - intros (e & H & _). discriminate.
Qed.

(** One call leaves the tables alone and takes at most the first subtask. *)
Lemma dispatch_frame (v : verb) (h : handler) :
  _compute_results (snd (dispatch v h)) = _compute_results h
  /\ _verify_results (snd (dispatch v h)) = _verify_results h
  /\ _benchmark_result (snd (dispatch v h)) = _benchmark_result h
  /\ _subtasks h
     = handed_out [fst (dispatch v h)] ++ _subtasks (snd (dispatch v h)).
Proof.
  destruct h as [cr br l vr].
  destruct v; unfold dispatch, create_task, next_subtask, verify,
    discard_subtasks, run_benchmark, has_pending_subtasks, compute,
    getitem, pop0; run_py.
  - done.
  - by destruct l.
  - by destruct (vr !! subtask_id).
  - done.
  - done.
  - done.
  - by destruct (cr !! subtask_id).
Qed.

Lemma handed_out_cons (r : result answer) (rs : list (result answer)) :
  handed_out (r :: rs) = handed_out [r] ++ handed_out rs.
Proof.
  destruct r as [[]| |]; simpl; try reflexivity.
Qed.

(** X8. Whatever calls the handler serves, in whatever order and
    whether or not some of them raise, its canned results stay as they
    were, and the subtasks it has handed out, in the order of the calls,
    followed by the subtasks it still holds, are the list it started
    with: subtasks go out in list order, each at most once, and none is
    lost or put back. *)
Theorem serve_hands_out_in_order (calls : list verb) (h : handler) :
  let rs := fst (serve calls h) in
  let h' := snd (serve calls h) in
  _compute_results h' = _compute_results h
  /\ _verify_results h' = _verify_results h
  /\ _benchmark_result h' = _benchmark_result h
  /\ _subtasks h = handed_out rs ++ _subtasks h'
  /\ length rs = length calls.
Proof.
  revert h. induction calls as [|v calls IH]; intros h; [done|].
  cbn [serve].
  pose proof (dispatch_frame v h) as (Hc & Hv & Hb & Hs).
  destruct (dispatch v h) as [r h1]. simpl in Hc, Hv, Hb, Hs.
  specialize (IH h1). destruct (serve calls h1) as [rs h2].
  simpl in IH. destruct IH as (Hc' & Hv' & Hb' & Hs' & Hl).
  cbn [fst snd]. rewrite Hc', Hv', Hb', Hc, Hv, Hb.
  repeat split.
  - rewrite handed_out_cons, Hs, Hs'. by rewrite app_assoc.
  - simpl. by rewrite Hl.
Qed.

Lemma serve_frame_tables (calls : list verb) (h : handler) :
  _compute_results (snd (serve calls h)) = _compute_results h
  /\ _verify_results (snd (serve calls h)) = _verify_results h
  /\ _benchmark_result (snd (serve calls h)) = _benchmark_result h.
Proof.
  revert h. induction calls as [|v calls IH]; intros h; [done|].
  cbn [serve].
  pose proof (dispatch_frame v h) as (Hc & Hv & Hb & _).
  destruct (dispatch v h) as [r h1]. simpl in Hc, Hv, Hb.
  specialize (IH h1). destruct (serve calls h1) as [rs h2].
  simpl in *. destruct IH as (Hc' & Hv' & Hb').
  by rewrite Hc', Hv', Hb', Hc, Hv, Hb.
Qed.

(** X9. What [compute], [verify] and [run_benchmark] answer does not
    depend on the calls served before: at any point of any run they
    answer what they would have answered at the start. *)
Theorem canned_answers_ignore_history
        (before : list verb) (h : handler) (dir : Path)
        (subtask_id : string) (params : dict) :
  let h' := snd (serve before h) in
  fst (compute dir subtask_id params h') = fst (compute dir subtask_id params h)
  /\ fst (verify dir subtask_id h') = fst (verify dir subtask_id h)
  /\ fst (run_benchmark dir h') = fst (run_benchmark dir h).
Proof.
  pose proof (serve_frame_tables before h) as (Hc & Hv & Hb).
  destruct (snd (serve before h)) as [cr1 br1 l1 vr1].
  destruct h as [cr br l vr]. simpl in Hc, Hv, Hb. subst.
  unfold verify, run_benchmark, compute, getitem; run_py.
  split; [|split].
  - by destruct (cr !! subtask_id).
  - by destruct (vr !! subtask_id).
  - done.
Qed.

(** *** The shared list of subtasks *)

(** X10. The handler pops the list object of the prerequisites it was
    made from. A [next_subtask] through the handler answers as it does on
    the handler taken as a value, and after it the prerequisites, and any
    other handler made from prerequisites holding the same list, have
    lost the subtask too; no other list is touched. *)
Theorem next_subtask_pops_the_shared_list
        (prereq : @PrerequisitesObject float) (hp : @heap Subtask)
        (dir : Path) :
  let h := new_handler prereq in
  let r := fst (next_subtask_of h dir hp) in
  let hp' := snd (next_subtask_of h dir hp) in
  (r, handler_value hp' h) = next_subtask dir (handler_value hp h)
  /\ subtasks_of prereq hp' = tail (subtasks_of prereq hp)
  /\ (forall other : @PrerequisitesObject float,
         subtasks_at other = subtasks_at prereq ->
         _subtasks (handler_value hp' (new_handler other))
         = tail (subtasks_of prereq hp))
  /\ (forall r' : ref, r' <> subtasks_at prereq -> hp' !! r' = hp !! r').
Proof.
  unfold next_subtask_of, next_subtask, handler_value, subtasks_of,
    new_handler, pop0, heap, ref in *.
  cbn [handler_subtasks_at handler_compute_results handler_benchmark_result
       handler_verify_results _subtasks _compute_results _benchmark_result
       _verify_results].
  match goal with
  | |- context [match ?l with [] => _ | _ :: _ => _ end] =>
      destruct l as [|x rest] eqn:Hl
  end;
    cbn [fst snd tail _subtasks]; rewrite !lookup_insert_eq;
    cbn [default option_map from_option].
  - split; [done|]. split; [done|]. split.
    + intros other ->. by rewrite lookup_insert_eq.
    + intros r' Hr'. by rewrite lookup_insert_ne.
  - split; [done|]. split; [done|]. split.
    + intros other ->. by rewrite lookup_insert_eq.
    + intros r' Hr'. by rewrite lookup_insert_ne.
Qed.

End HandlerSpec.

Lemma has_pending_subtasks_tells_next_subtask_witness :
  exists x h',
    next_subtask "/tmp/work"
                 (LocalhostAppHandler_init example_prerequisites)
    = (Ok x, h').
Proof.
  apply (proj1 (has_pending_subtasks_tells_next_subtask
                  (LocalhostAppHandler_init example_prerequisites)
                  "/tmp/work" "/tmp/work")).
  reflexivity.
Defined.

(** Two handlers made from the same prerequisites: the first is handed
    subtask 1, after which the second is handed subtask 2. *)
Lemma next_subtask_pops_the_shared_list_witness :
  fst (next_subtask_of (new_handler example_prerequisites_object)
                       "/tmp/work" example_heap) = Ok 1%nat
  /\ _subtasks
       (handler_value
          (snd (next_subtask_of (new_handler example_prerequisites_object)
                                "/tmp/work" example_heap))
          (new_handler example_prerequisites_object))
     = tail (subtasks_of example_prerequisites_object example_heap)
  /\ tail (subtasks_of example_prerequisites_object example_heap) = [2%nat].
Proof.
  destruct (next_subtask_pops_the_shared_list
              example_prerequisites_object example_heap "/tmp/work")
    as (Hvalue & _ & Hother & _).
  split; [|split].
  - reflexivity.
  - apply Hother. reflexivity.
  - reflexivity.
Defined.

Lemma compute_verify_lookup_witness :
  compute "/tmp/work" "s1" tt (LocalhostAppHandler_init example_prerequisites)
  = (Ok "r1", LocalhostAppHandler_init example_prerequisites)
  /\ exists e,
      compute "/tmp/work" "s2" tt
              (LocalhostAppHandler_init example_prerequisites)
      = (Raise e, LocalhostAppHandler_init example_prerequisites)
      /\ exc_type e = KeyError.
Proof.
  split.
  - apply compute_verify_lookup. reflexivity.
  - apply compute_verify_lookup. reflexivity.
Defined.

(** ** The runtime *)

Section RuntimeSpec.
Context {Subtask float : Type}.
Variable split : string -> list string.

Local Abbreviation world := (@world Subtask float).
Local Abbreviation payload := (@LocalhostPayload Subtask float).

(** Runs a method on a world given field by field. *)
Ltac run_method :=
  unfold prepare, clean_up, start, stop, _spawn_server,
    _spawn_server_begin, _spawn_server_end, run_until_complete, complete,
    entrypoint_call, Thread_new, Thread_start, new_event_loop,
    set_event_loop, set_server_loop, set_server_thread,
    _prepared, _started, _stopped, _torn_down, _error_occurred,
    set_status, deref, attr, new_handle, set_worker, emit, with_self,
    is_not_None in *;
  run_py.

(** What [start] does, in full. *)
Lemma start_spec (w : world) :
  start w =
  (Ok defer_succeed_None,
   mk_world
     (mk_runtime started (_fault (self w)) (_command (self w))
                 (_work_dir (self w)) (_app_handler (self w))
                 (_server (self w)) (_server_loop (self w))
                 (Some (mk_thread (fresh w))))
     (current w)
     (<[fresh w := Launched]> (workers w))
     (S (fresh w))
     (trace w ++ [(current w, EvThreadStart (mk_thread (fresh w)));
                  (current w, EvStatus started)])).
Proof.
  run_method. by rewrite <- app_assoc.
Qed.

(** C2. [start] makes the worker thread, launches it, signals
    [started] and returns, all on the calling thread and whatever
    state the runtime and its other threads are in: it performs no
    step of the worker and waits for none. When it returns the new
    thread has not yet entered its target, so no event loop has been
    made and no server is running, and the state is [started]. So it
    is for a runtime that is prepared and then started. *)
Theorem start_returns_at_thread_launch (w : world) (p : payload) :
  (exists w',
      start w = (Ok defer_succeed_None, w')
      /\ _server_thread (self w') = Some (mk_thread (fresh w))
      /\ workers w' !! fresh w = Some Launched
      /\ _status (self w') = started
      /\ trace w' =
         trace w ++ [(current w, EvThreadStart (mk_thread (fresh w)));
                     (current w, EvStatus started)]
      /\ _server_loop (self w') = _server_loop (self w)
      /\ _server (self w') = _server (self w))
  /\ (let w2 := execs split [call_prepare; call_start]
                      (LocalhostRuntime_init p) in
      _status (self w2) = started
      /\ workers w2 = {[ 0%nat := Launched ]}
      /\ _server_loop (self w2) = None
      /\ trace w2 = [(MainThread, EvStatus prepared);
                     (MainThread, EvThreadStart (mk_thread 0));
                     (MainThread, EvStatus started)]).
Proof.
  split.
  - rewrite start_spec. eexists. split; [reflexivity|]. simpl.
    repeat split. by rewrite lookup_insert_eq.
  - unfold execs. cbn [fold_left exec]. unfold after.
    rewrite start_spec. simpl.
    repeat split.
Qed.

(** *** The worker thread *)

(** The two steps of a worker make up [_spawn_server]. *)
Lemma _spawn_server_split (o : outcome) (w : world) :
  _spawn_server split o w
  = (_spawn_server_begin split ;; _spawn_server_end o) w.
Proof.
  run_method. destruct o as [|e]; [reflexivity|].
  destruct (isinstance_Exception e); reflexivity.
Qed.



(** An exception that is not an [Exception] is none of the handler's:
    it leaves [_spawn_server], and the state of the runtime stays. *)
Lemma _spawn_server_propagates (e : exn) (w : world) :
  isinstance_Exception e = false ->
  exists w',
    _spawn_server split (Raises e) w = (Raise e, w')
    /\ _status (self w') = _status (self w)
    /\ _fault (self w') = _fault (self w).
Proof.
  intros He. run_method. rewrite He.
  eexists. split; [reflexivity|]. simpl. by split.
Qed.


(** *** The [_server] field *)

(** No method writes [_server]. *)
Lemma prepare_keeps_server (w : world) :
  _server (self (snd (prepare w))) = _server (self w).
Proof. reflexivity. Qed.

Lemma clean_up_keeps_server (w : world) :
  _server (self (snd (clean_up w))) = _server (self w).
Proof. reflexivity. Qed.

Lemma start_keeps_server (w : world) :
  _server (self (snd (start w))) = _server (self w).
Proof. by rewrite start_spec. Qed.

Lemma stop_keeps_server (o : outcome) (w : world) :
  _server (self (snd (stop o w))) = _server (self w).
Proof.
  destruct w as [[st fl cmd wd h srv lp th] cur ws fr tr].
  run_method.
  destruct srv, lp, th; simpl; try reflexivity.
  destruct o as [|ex]; simpl; [reflexivity|].
  destruct (isinstance_Exception ex); reflexivity.
Qed.

Lemma _spawn_server_begin_keeps_server (w : world) :
  _server (self (snd (_spawn_server_begin split w))) = _server (self w).
Proof. reflexivity. Qed.

Lemma _spawn_server_end_keeps_server (o : outcome) (w : world) :
  _server (self (snd (_spawn_server_end o w))) = _server (self w).
Proof.
  run_method. destruct o as [|e]; [reflexivity|].
  destruct (isinstance_Exception e); reflexivity.
Qed.

Lemma _spawn_server_keeps_server (o : outcome) (w : world) :
  _server (self (snd (_spawn_server split o w))) = _server (self w).
Proof.
  rewrite _spawn_server_split. unfold bind.
  destruct (_spawn_server_begin split w) as [[[]|e|] w1] eqn:Hb;
    pose proof (_spawn_server_begin_keeps_server w) as Hk;
    rewrite Hb in Hk; simpl in Hk; simpl; try done.
  by rewrite _spawn_server_end_keeps_server.
Qed.

Lemma after_keeps_server {A} (m : M world A) (who : tid) (w : world) :
  (forall w0, _server (self (snd (m w0))) = _server (self w0)) ->
  _server (self (after m who w)) = _server (self w).
Proof.
  intros Hm. unfold after, on_thread. cbn [self]. by rewrite Hm.
Qed.

Lemma exec_keeps_server (o : op) (w : world) :
  _server (self (exec split o w)) = _server (self w).
Proof.
  destruct o as [| |o| |t|t o]; cbn [exec].
  - apply after_keeps_server, prepare_keeps_server.
  - apply after_keeps_server, start_keeps_server.
  - apply after_keeps_server, stop_keeps_server.
  - apply after_keeps_server, clean_up_keeps_server.
  - destruct (workers w !! thread_ident t) as [[]|]; reflexivity.
  - destruct (workers w !! thread_ident t) as [[]|]; try reflexivity.
    apply after_keeps_server. intros w0.
    pose proof (_spawn_server_end_keeps_server o w0) as Hk.
    destruct (_spawn_server_end o w0) as [r w1]. exact Hk.
Qed.

Lemma execs_keep_server (ops : list op) (w : world) :
  _server (self (execs split ops w)) = _server (self w).
Proof.
  revert w. induction ops as [|o ops IH]; intros w; [reflexivity|].
  unfold execs in *. simpl. rewrite IH. apply exec_keeps_server.
Qed.

(** With no server, [stop] ends at its first assertion, having done
    nothing. *)
Lemma stop_without_server (o : outcome) (w : world) :
  _server (self w) = None ->
  stop o w = (Raise (mk_exn AssertionError ""), w).
Proof.
  destruct w as [[st fl cmd wd h srv lp th] cur ws fr tr]. simpl.
  intros ->. reflexivity.
Qed.

(** What [stop] goes on to do past its assertions: it hands
    [self._server.stop()] to the loop and, when that raised nothing,
    defers the join of the worker thread with a timeout of 10; when it
    raised, it answers a failed deferred and defers nothing. *)
Lemma stop_with_server (w : world) (srv : AppServer) (l : EventLoop)
      (t : Thread) :
  _server (self w) = Some srv ->
  _server_loop (self w) = Some l ->
  _server_thread (self w) = Some t ->
  stop Returns w
  = (Ok (deferToThread (Thread_join t 10)),
     mk_world (self w) (current w) (workers w) (fresh w)
              (trace w ++ [(current w, EvRunUntilComplete l (server_stop srv));
                           (current w, EvDeferToThread (Thread_join t 10))]))
  /\ forall e,
      isinstance_Exception e = true ->
      stop (Raises e) w
      = (Ok defer_fail,
         mk_world (self w) (current w) (workers w) (fresh w)
                  (trace w ++ [(current w,
                                EvRunUntilComplete l (server_stop srv))])).
Proof.
  destruct w as [[st fl cmd wd h srv' lp th] cur ws fr tr]. simpl.
  intros -> -> ->. run_method. split.
  - by rewrite <- app_assoc.
  - intros e ->. reflexivity.
Qed.

(** C3. [_server] is [None] when the runtime is made, and none of
    [prepare], [start], [_spawn_server], [stop] and [clean_up] writes
    it. So it is [None] in every state the runtime can reach, whatever
    the calls made and however far its workers have run, and there the
    first assertion of [stop] fails: [stop] raises [AssertionError]
    and has done nothing. *)
Theorem server_is_never_set :
  (forall p : payload, _server (self (LocalhostRuntime_init p)) = None)
  /\ (forall (w : world) (o : outcome),
         _server (self (snd (prepare w))) = _server (self w)
         /\ _server (self (snd (start w))) = _server (self w)
         /\ _server (self (snd (_spawn_server split o w))) = _server (self w)
         /\ _server (self (snd (stop o w))) = _server (self w)
         /\ _server (self (snd (clean_up w))) = _server (self w))
  /\ (forall (p : payload) (w : world),
         reachable split p w ->
         _server (self w) = None
         /\ forall o, stop o w = (Raise (mk_exn AssertionError ""), w)).
Proof.
  split; [reflexivity|]. split.
  - intros w o. split; [|split; [|split; [|split]]].
    + apply prepare_keeps_server.
    + apply start_keeps_server.
    + apply _spawn_server_keeps_server.
    + apply stop_keeps_server.
    + apply clean_up_keeps_server.
  - intros p w [ops ->].
    assert (Hs : _server (self (execs split ops (LocalhostRuntime_init p)))
                 = None) by (by rewrite execs_keep_server).
    split; [exact Hs|].
    intros o. by apply stop_without_server.
Qed.

(** C1. Take a runtime that has been prepared and started and whose
    worker has made its event loop and is serving the entry point. Its
    worker thread and its event loop are there, but [_server] is still
    [None]: [stop] raises [AssertionError] at its first line, hands
    nothing to the loop and returns no deferred. *)
Theorem stop_after_start_raises (p : payload) (o : outcome) :
  let w := execs split
             [call_prepare; call_start; worker_begin (mk_thread 0)]
             (LocalhostRuntime_init p) in
  _status (self w) = started
  /\ _server_thread (self w) = Some (mk_thread 0)
  /\ _server_loop (self w) = Some (mk_loop 1)
  /\ workers w !! 0%nat = Some Serving
  /\ _server (self w) = None
  /\ stop o w = (Raise (mk_exn AssertionError ""), w).
Proof.
  intros w. repeat split; reflexivity.
Qed.

(** *** Further properties of the runtime *)

(** X11. An exception of the entry point that is not an [Exception]
    ([SystemExit], [KeyboardInterrupt]) is not caught: it leaves
    [_spawn_server], no notification is made and the runtime keeps the
    state and the fault it had. The worker thread that ran the target has
    died of it, and a runtime that was [started] still says so. *)
Theorem _spawn_server_lets_non_exceptions_through
        (e : exn) (w : world) (t : Thread) :
  isinstance_Exception e = false ->
  (exists w',
      _spawn_server split (Raises e) w = (Raise e, w')
      /\ _status (self w') = _status (self w)
      /\ _fault (self w') = _fault (self w)
      /\ (forall who s, ~ In (who, EvStatus s) (trace w) ->
                        ~ In (who, EvStatus s) (trace w'))
      /\ (forall who e' m, ~ In (who, EvError e' m) (trace w) ->
                           ~ In (who, EvError e' m) (trace w')))
  /\ (workers w !! thread_ident t = Some Launched ->
      let w' := execs split [worker_begin t; worker_end t (Raises e)] w in
      workers w' !! thread_ident t = Some (Died e)
      /\ _status (self w') = _status (self w)
      /\ _fault (self w') = _fault (self w)).
Proof.
  intros He. split.
  - run_method. rewrite He. eexists. split; [reflexivity|]. simpl.
    split; [done|]. split; [done|]. split.
    + intros who s Hn Hin. rewrite !in_app_iff in Hin. simpl in Hin.
      intuition congruence.
    + intros who e' m Hn Hin. rewrite !in_app_iff in Hin. simpl in Hin.
      intuition congruence.
  - intros Hw. unfold execs. cbn [fold_left exec]. rewrite Hw.
    unfold after at 2. run_method.
    rewrite lookup_insert_eq. unfold after. run_method. rewrite He.
    simpl. repeat split. by rewrite lookup_insert_eq.
Qed.

(** X12. [_spawn_server] makes a new event loop, stores it in
    [_server_loop] and installs it, and then runs the entry point on
    that loop, once, with the work directory of the runtime, its command
    split into words, and its one handler in both roles. After that
    comes one notification: [stopped] when the entry point returned, the
    error and [failed] when it raised an [Exception], none otherwise. *)
Theorem _spawn_server_runs_entrypoint_once (o : outcome) (w : world) :
  let w' := snd (_spawn_server split o w) in
  let l := mk_loop (fresh w) in
  _server_loop (self w') = Some l
  /\ fresh w' = S (fresh w)
  /\ _app_handler (self w') = _app_handler (self w)
  /\ trace w'
     = trace w
         ++ [(current w, EvNewEventLoop l);
             (current w, EvSetEventLoop l);
             (current w,
              EvRunUntilComplete
                l (entrypoint (_work_dir (self w))
                              (split (_command (self w)))
                              (_app_handler (self w))
                              (_app_handler (self w))))]
         ++ match o with
            | Returns => [(current w, EvStatus stopped)]
            | Raises e =>
                if isinstance_Exception e
                then [(current w, EvError e (str e));
                      (current w, EvStatus failed)]
                else []
            end.
Proof.
  run_method. destruct o as [|e]; simpl.
  - repeat split. by rewrite <- !app_assoc.
  - destruct (isinstance_Exception e); simpl.
    + repeat split. by rewrite <- !app_assoc.
    + repeat split. by rewrite <- !app_assoc.
Qed.

(** [stop] writes no field of the runtime and launches nothing. *)
Lemma stop_frame (o : outcome) (w : world) :
  self (snd (stop o w)) = self w
  /\ workers (snd (stop o w)) = workers w
  /\ fresh (snd (stop o w)) = fresh w
  /\ current (snd (stop o w)) = current w.
Proof.
  destruct w as [[st fl cmd wd h srv lp th] cur ws fr tr].
  run_method.
  destruct srv, lp, th; simpl; try done.
  destruct o as [|ex]; simpl; [done|].
  destruct (isinstance_Exception ex); done.
Qed.

(** X13. [stop] in full. With any of [_server], [_server_loop] and
    [_server_thread] unset it raises [AssertionError] and has done
    nothing. With all three set it hands [self._server.stop()] to the
    loop, and what follows depends on how that call ends ([call_ends]).
    While a worker is running the loop the call is refused, and [stop]
    answers a failed deferred and defers no join. On an idle loop, when
    the coroutine returns [stop] defers the join of the worker thread
    with a timeout of 10, after the call, and answers that deferred; when
    it raises an [Exception], [stop] answers a failed deferred and defers
    no join; any other exception leaves [stop]. In no case does [stop]
    write a field of the runtime: the state [stopped] is never set by
    [stop] itself. *)
Theorem stop_asserts_submits_then_joins (o : outcome) (w : world) :
  (self (snd (stop o w)) = self w
   /\ workers (snd (stop o w)) = workers w)
  /\ (_server (self w) = None \/ _server_loop (self w) = None
      \/ _server_thread (self w) = None ->
      stop o w = (Raise (mk_exn AssertionError ""), w))
  /\ (forall srv l t,
         _server (self w) = Some srv ->
         _server_loop (self w) = Some l ->
         _server_thread (self w) = Some t ->
         let submitted :=
           mk_world (self w) (current w) (workers w) (fresh w)
                    (trace w
                       ++ [(current w,
                            EvRunUntilComplete l (server_stop srv))]) in
         let joined :=
           mk_world (self w) (current w) (workers w) (fresh w)
                    (trace w
                       ++ [(current w, EvRunUntilComplete l (server_stop srv));
                           (current w, EvDeferToThread (Thread_join t 10))]) in
         (loop_is_running l w = true ->
          stop (call_ends l w o) w = (Ok defer_fail, submitted))
         /\ (loop_is_running l w = false ->
             (o = Returns ->
              stop (call_ends l w o) w
              = (Ok (deferToThread (Thread_join t 10)), joined))
             /\ (forall e,
                    o = Raises e ->
                    stop (call_ends l w o) w
                    = (if isinstance_Exception e
                       then Ok defer_fail else Raise e,
                       submitted)))).
Proof.
  split; [|split].
  - pose proof (stop_frame o w) as (? & ? & _). by split.
  - destruct w as [[st fl cmd wd h srv lp th] cur ws fr tr]. simpl.
    intros [->|[->| ->]]; run_method.
    + reflexivity.
    + by destruct srv.
    + by destruct srv, lp.
  - intros srv l t Hsrv Hl Ht submitted joined. unfold call_ends.
    subst submitted joined.
    destruct (loop_is_running l w);
      destruct w as [[st fl cmd wd h srv' lp th] cur ws fr tr];
      simpl in Hsrv, Hl, Ht; subst; cbn [self current workers fresh trace].
    + split; [|discriminate]. intros _. reflexivity.
    + split; [discriminate|]. intros _. split.
      * intros ->. run_method. by rewrite <- app_assoc.
      * intros e ->. run_method. by destruct (isinstance_Exception e).
Qed.

(** X16. A payload made by [create_payload] and handed to [runtime]
    gives a new runtime, whatever the port and the configuration: both
    are dropped. When that runtime is prepared and started and its worker
    runs, the entry point is called with the directory given to
    [create_payload], the command split into words and a handler that
    holds the canned data of the prerequisites. Prerequisites and
    payloads of another environment fail the assertions. *)
Theorem create_payload_runtime_entrypoint
        (prereq : @LocalhostPrerequisites Subtask float)
        (dir : Path) (cmd : string) (port : Z) (config : option EnvConfig) :
  (exists pl w0,
      create_payload (Localhost_prerequisites prereq) dir cmd port = Ok pl
      /\ runtime pl config = Ok w0
      /\ _status (self w0) = uninitialized
      /\ _server_thread (self w0) = None
      /\ _server_loop (self w0) = None
      /\ _app_handler (self w0) = LocalhostAppHandler_init prereq
      /\ last (trace (execs split
                            [call_prepare; call_start;
                             worker_begin (mk_thread 0)] w0))
         = Some (WorkerThread (mk_thread 0),
                 EvRunUntilComplete
                   (mk_loop 1)
                   (entrypoint dir (split cmd)
                               (LocalhostAppHandler_init prereq)
                               (LocalhostAppHandler_init prereq))))
  /\ create_payload (@Other_prerequisites Subtask float) dir cmd port
     = Raise (mk_exn AssertionError "")
  /\ @runtime Subtask float Other_payload config
     = Raise (mk_exn AssertionError "").
Proof.
  split; [|split; reflexivity].
  eexists _, _. split; [reflexivity|]. split; [reflexivity|].
  repeat split.
Qed.

(** *** What holds of the handles in every reachable state *)

(** The thread and loop handles of a world are in order when every
    worker is older than the next fresh handle, the thread of
    [_server_thread] is a worker, a loop in [_server_loop] was made by a
    worker that has entered its target, and without [_server_thread]
    there is no worker. *)
Local Abbreviation handles_in_order w :=
  ((forall n st, workers w !! n = Some st -> Nat.lt n (fresh w))
   /\ (forall t, _server_thread (self w) = Some t ->
                 is_Some (workers w !! thread_ident t))
   /\ (forall l, _server_loop (self w) = Some l ->
                 exists n st, workers w !! n = Some st /\ st <> Launched)
   /\ (_server_thread (self w) = None -> workers w = ∅)
   /\ current w = MainThread).

Lemma init_handles_in_order (p : payload) :
  handles_in_order (LocalhostRuntime_init p).
Proof.
  simpl. repeat split; try done.
Qed.

(** The two steps of a worker, as they change the handles. *)
Lemma worker_begin_handles (t : Thread) (w : world) :
  workers w !! thread_ident t = Some Launched ->
  let w' := exec split (worker_begin t) w in
  workers w' = <[thread_ident t := Serving]> (workers w)
  /\ fresh w' = S (fresh w)
  /\ _server_thread (self w') = _server_thread (self w)
  /\ _server_loop (self w') = Some (mk_loop (fresh w))
  /\ current w' = MainThread.
Proof.
  intros Hw. cbn [exec]. rewrite Hw. unfold after. run_method. done.
Qed.

Lemma worker_end_handles (t : Thread) (o : outcome) (w : world) :
  workers w !! thread_ident t = Some Serving ->
  let w' := exec split (worker_end t o) w in
  (exists st, st <> Launched
              /\ workers w' = <[thread_ident t := st]> (workers w))
  /\ fresh w' = fresh w
  /\ _server_thread (self w') = _server_thread (self w)
  /\ _server_loop (self w') = _server_loop (self w)
  /\ current w' = MainThread.
Proof.
  intros Hw. cbn [exec]. rewrite Hw. unfold after. run_method.
  destruct o as [|e]; simpl.
  - split; [|done]. by exists Finished.
  - destruct (isinstance_Exception e); simpl.
    + split; [|done]. by exists Finished.
    + split; [|done]. by exists (Died e).
Qed.

Lemma exec_handles_in_order (o : op) (w : world) :
  handles_in_order w -> handles_in_order (exec split o w).
Proof.
  intros (Hold & Hthread & Hloop & Hnone & Hcur).
  destruct o as [| |o| |t|t o].
  - (* prepare *) cbn [exec]. unfold after. run_method. done.
  - (* start *) cbn [exec]. unfold after. rewrite start_spec. simpl.
    split; [|split; [|split; [|split]]]; try done.
    + intros n st Hn. destruct (decide (n = fresh w)) as [->|Hne]; [lia|].
      rewrite lookup_insert_ne in Hn by done.
      specialize (Hold _ _ Hn). lia.
    + intros t [= <-]. simpl. rewrite lookup_insert_eq. by eexists.
    + intros l Hl. destruct (Hloop l Hl) as (n & st & Hn & Hst).
      exists n, st. split; [|done].
      rewrite lookup_insert_ne; [done|].
      specialize (Hold _ _ Hn). lia.
  - (* stop *) cbn [exec]. unfold after.
    pose proof (stop_frame o (on_thread MainThread w)) as (Hs & Hw & Hf & _).
    simpl. rewrite Hs, Hw, Hf. simpl. done.
  - (* clean_up *) cbn [exec]. unfold after. run_method. done.
  - (* a worker enters its target *)
    destruct (workers w !! thread_ident t) as [[]|] eqn:Hw;
      try (cbn [exec]; rewrite Hw; done).
    destruct (worker_begin_handles t w Hw) as (Hws & Hf & Ht & Hl & Hc).
    rewrite Hws, Hf, Ht, Hl, Hc.
    split; [|split; [|split; [|split]]]; try done.
    + intros n st Hn. destruct (decide (n = thread_ident t)) as [->|Hne].
      * specialize (Hold _ _ Hw). lia.
      * rewrite lookup_insert_ne in Hn by done.
        specialize (Hold _ _ Hn). lia.
    + intros t' Ht'. destruct (Hthread t' Ht') as [st Hst].
      destruct (decide (thread_ident t' = thread_ident t)) as [->|Hne].
      * rewrite lookup_insert_eq. by eexists.
      * rewrite lookup_insert_ne by done. by eexists.
    + intros l _. exists (thread_ident t), Serving.
      by rewrite lookup_insert_eq.
    + intros Hn. rewrite (Hnone Hn) in Hw. by rewrite lookup_empty in Hw.
  - (* a worker leaves its target *)
    destruct (workers w !! thread_ident t) as [[]|] eqn:Hw;
      try (cbn [exec]; rewrite Hw; done).
    destruct (worker_end_handles t o w Hw)
      as ((st & Hst & Hws) & Hf & Ht & Hl & Hc).
    rewrite Hws, Hf, Ht, Hl, Hc.
    split; [|split; [|split; [|split]]]; try done.
    + intros n st' Hn. destruct (decide (n = thread_ident t)) as [->|Hne].
      * by apply (Hold _ _ Hw).
      * rewrite lookup_insert_ne in Hn by done. by apply (Hold _ _ Hn).
    + intros t' Ht'. destruct (Hthread t' Ht') as [st' Hst'].
      destruct (decide (thread_ident t' = thread_ident t)) as [->|Hne].
      * rewrite lookup_insert_eq. by eexists.
      * rewrite lookup_insert_ne by done. by eexists.
    + intros l _. exists (thread_ident t), st.
      by rewrite lookup_insert_eq.
    + intros Hn. rewrite (Hnone Hn) in Hw. by rewrite lookup_empty in Hw.
Qed.

Lemma execs_handles_in_order (ops : list op) (w : world) :
  handles_in_order w -> handles_in_order (execs split ops w).
Proof.
  revert w. induction ops as [|o ops IH]; intros w Hw; [exact Hw|].
  unfold execs in *. cbn [fold_left]. apply IH.
  by apply exec_handles_in_order.
Qed.

(** X14. In every state a runtime can reach: [_server_thread], once
    set, names a thread that [start] has launched; [_server_loop] is set
    only when some worker has entered [_spawn_server], so that as long as
    every launched worker is still waiting to run, [_server_loop] is
    [None] and the second assertion of [stop] would fail as well; and
    before the first [start] there is no worker. *)
Theorem reachable_handles (p : payload) (w : world) :
  reachable split p w ->
  (forall t, _server_thread (self w) = Some t ->
             is_Some (workers w !! thread_ident t))
  /\ (forall l, _server_loop (self w) = Some l ->
                exists n st, workers w !! n = Some st /\ st <> Launched)
  /\ ((forall n st, workers w !! n = Some st -> st = Launched) ->
      _server_loop (self w) = None)
  /\ (_server_thread (self w) = None -> workers w = ∅).
Proof.
  intros [ops ->].
  pose proof (execs_handles_in_order ops _ (init_handles_in_order p))
    as (_ & Hthread & Hloop & Hnone & _).
  split; [exact Hthread|]. split; [exact Hloop|]. split; [|exact Hnone].
  intros Hall.
  destruct (_server_loop (self (execs split ops (LocalhostRuntime_init p))))
    as [l|] eqn:Hl; [|done].
  destruct (Hloop l eq_refl) as (n & st & Hn & Hst).
  by rewrite (Hall _ _ Hn) in Hst.
Qed.

Lemma execs_thread_count (ops : list op) :
  forall w : world,
    handles_in_order w ->
    size (workers (execs split ops w)) = (size (workers w) + starts ops)%nat.
Proof.
  induction ops as [|o ops IH]; intros w Hw.
  - simpl. lia.
  - unfold execs in *. cbn [fold_left].
    rewrite (IH _ (exec_handles_in_order o w Hw)).
    destruct Hw as (Hold & _).
    destruct o as [| |o| |t|t o]; cbn [starts].
    + cbn [exec]. unfold after. run_method. lia.
    + cbn [exec]. unfold after. rewrite start_spec. simpl.
      rewrite map_size_insert_None; [lia|].
      destruct (workers w !! fresh w) as [st|] eqn:Hf; [|done].
      specialize (Hold _ _ Hf). lia.
    + cbn [exec]. unfold after.
      pose proof (stop_frame o (on_thread MainThread w)) as (_ & Hws & _).
      simpl. rewrite Hws. simpl. lia.
    + cbn [exec]. unfold after. run_method. lia.
    + destruct (workers w !! thread_ident t) as [[]|] eqn:Hw;
        try (cbn [exec]; rewrite Hw; lia).
      destruct (worker_begin_handles t w Hw) as (Hws & _).
      rewrite Hws, map_size_insert_Some; [lia|by eexists].
    + destruct (workers w !! thread_ident t) as [[]|] eqn:Hw;
        try (cbn [exec]; rewrite Hw; lia).
      destruct (worker_end_handles t o w Hw) as ((st & _ & Hws) & _).
      rewrite Hws, map_size_insert_Some; [lia|by eexists].
Qed.

(** X15. [start] does not look at whether the runtime has a worker
    already: every call launches one more thread, and no operation ever
    takes a thread away. After any operations the runtime has made as
    many threads as [start] was called, of which [_server_thread] names
    the one made last. *)
Theorem one_thread_per_start (p : payload) (ops : list op) :
  let w := execs split ops (LocalhostRuntime_init p) in
  size (workers w) = starts ops
  /\ (forall ops' : list op,
         let w2 := execs split (ops ++ [call_start] ++ ops') 
                         (LocalhostRuntime_init p) in
         starts ops' = 0%nat ->
         _server_thread (self w2) = Some (mk_thread (fresh w))).
Proof.
  split.
  - rewrite (execs_thread_count ops _ (init_handles_in_order p)).
    simpl. by rewrite map_size_empty.
  - intros ops' w2 Hnone. unfold w2, execs. rewrite !fold_left_app.
    cbn [fold_left].
    set (w0 := fold_left (fun w o => exec split o w) ops
                         (LocalhostRuntime_init p)).
    assert (Hstart : _server_thread (self (exec split call_start w0))
                     = Some (mk_thread (fresh w0))).
    { cbn [exec]. unfold after. by rewrite start_spec. }
    revert Hstart. generalize (exec split call_start w0) as w1.
    induction ops' as [|o ops' IH]; intros w1 Hw1; [exact Hw1|].
    cbn [fold_left]. apply IH.
    + by destruct o.
    + destruct o as [| |o| |t|t o].
      * cbn [exec]. unfold after. run_method. done.
      * discriminate.
      * cbn [exec]. unfold after.
        pose proof (stop_frame o (on_thread MainThread w1)) as (Hs & _).
        simpl. by rewrite Hs.
      * cbn [exec]. unfold after. run_method. done.
      * destruct (workers w1 !! thread_ident t) as [[]|] eqn:Hw;
          try (cbn [exec]; rewrite Hw; exact Hw1).
      * destruct (workers w1 !! thread_ident t) as [[]|] eqn:Hw;
          try (cbn [exec]; rewrite Hw; exact Hw1).
        destruct (worker_end_handles t o w1 Hw) as (_ & _ & Ht & _).
        by rewrite Ht.
Qed.

End RuntimeSpec.


(** After [prepare], [start] and the worker's first step. *)
Lemma server_is_never_set_witness :
  _server (self (execs one_word
                       [call_prepare; call_start; worker_begin (mk_thread 0)]
                       (LocalhostRuntime_init example_payload))) = None
  /\ forall o,
      stop o (execs one_word
                    [call_prepare; call_start; worker_begin (mk_thread 0)]
                    (LocalhostRuntime_init example_payload))
      = (Raise (mk_exn AssertionError ""),
         execs one_word
               [call_prepare; call_start; worker_begin (mk_thread 0)]
               (LocalhostRuntime_init example_payload)).
Proof.
  apply (proj2 (proj2 (server_is_never_set one_word)) example_payload).
  eexists. reflexivity.
Defined.

(** The entry point leaves by [sys.exit]. *)
Lemma _spawn_server_lets_non_exceptions_through_witness :
  exists w',
    _spawn_server one_word (Raises (mk_exn SystemExit "2"))
                  (execs one_word [call_prepare; call_start]
                         (LocalhostRuntime_init example_payload))
    = (Raise (mk_exn SystemExit "2"), w')
    /\ _status (self w') = started
    /\ _fault (self w') = None.
Proof.
  destruct (proj1 (_spawn_server_lets_non_exceptions_through
                     one_word (mk_exn SystemExit "2")
                     (execs one_word [call_prepare; call_start]
                            (LocalhostRuntime_init example_payload))
                     (mk_thread 0) eq_refl))
    as (w' & Hrun & Hst & Hf & _).
  exists w'. split; [exact Hrun|]. split.
  - rewrite Hst. reflexivity.
  - rewrite Hf. reflexivity.
Defined.

Lemma stop_asserts_submits_then_joins_witness :
  (loop_is_running (mk_loop 1) example_world_serving = true
   /\ fst (stop (call_ends (mk_loop 1) example_world_serving Returns)
                example_world_serving)
      = Ok defer_fail)
  /\ (loop_is_running (mk_loop 1) example_world_idle = false
      /\ fst (stop (call_ends (mk_loop 1) example_world_idle Returns)
                   example_world_idle)
         = Ok (deferToThread (Thread_join (mk_thread 0) 10))).
Proof.
  split.
  - split; [reflexivity|].
    destruct (proj2 (proj2 (stop_asserts_submits_then_joins
                              Returns example_world_serving))
                    (mk_server 7) (mk_loop 1) (mk_thread 0)
                    eq_refl eq_refl eq_refl)
      as (Hrunning & _).
    by rewrite (Hrunning eq_refl).
  - split; [reflexivity|].
    destruct (proj2 (proj2 (stop_asserts_submits_then_joins
                              Returns example_world_idle))
                    (mk_server 7) (mk_loop 1) (mk_thread 0)
                    eq_refl eq_refl eq_refl)
      as (_ & Hidle).
    destruct (Hidle eq_refl) as (Hreturns & _).
    by rewrite (Hreturns eq_refl).
Defined.

(** Prepared and started, with the worker still waiting to run. *)
Lemma reachable_handles_witness :
  _server_loop (self (execs one_word [call_prepare; call_start]
                            (LocalhostRuntime_init example_payload)))
  = None.
Proof.
  apply (proj1 (proj2 (proj2 (reachable_handles
                                one_word example_payload _
                                (ex_intro _ [call_prepare; call_start]
                                          eq_refl))))).
  intros n st Hn.
  change (({[ 0%nat := Launched ]} : gmap nat thread_state) !! n = Some st)
    in Hn.
  apply lookup_singleton_Some in Hn. by destruct Hn as [_ <-].
Defined.

Lemma one_thread_per_start_witness :
  _server_thread
    (self (execs one_word
                 ([call_prepare] ++ [call_start]
                    ++ [worker_begin (mk_thread 0)])
                 (LocalhostRuntime_init example_payload)))
  = Some (mk_thread
            (fresh (execs one_word [call_prepare]
                          (LocalhostRuntime_init example_payload)))).
Proof.
  apply (proj2 (one_thread_per_start one_word example_payload
                                     [call_prepare])
               [worker_begin (mk_thread 0)]).
  reflexivity.
Defined.

End LocalhostSpec.
